(** * A dungeon floor: camera, visibility, compositor, spatial queries, game loop

    Shallow embedding of [gamemap.py] and [model.py].

    Python integers are [Z].  A 2-D NumPy array is a shape together with a
    cell function; every access goes through the NumPy indexing rules
    written out below (negative indices wrap, out-of-range indices raise,
    slices clamp, assignment broadcasts).  A method returns, next to its
    result, the state of the object it may assign to ([self], or the
    console for [render]); on an exception that state is the one reached
    when it was raised. *)

From Stdlib Require Import ZArith List Bool Lia.
From Stdlib Require String.
Import ListNotations.
Local Open Scope Z_scope.

Set Implicit Arguments.

(** ** Exceptions *)

Inductive exn : Type :=
| AttributeError
| IndexError
| ValueError
| TypeError.

Inductive result (A : Type) : Type :=
| Ok (a : A)
| Raise (e : exn).

Arguments Ok {A} a.
Arguments Raise {A} e.

Definition bind {A B : Type} (r : result A) (k : A -> result B) : result B :=
  match r with
  | Ok a => k a
  | Raise e => Raise e
  end.

Notation "x <- r ;; k" := (bind r (fun x => k))
  (at level 61, r at next level, right associativity).

(** ** NumPy arrays of two dimensions *)

Module Np.

Record ndarray (A : Type) : Type := mk_array {
  nrows : nat;
  ncols : nat;
  item : Z -> Z -> A
}.

(** [slice(start, stop)] with no step. *)
Record slice : Type := mk_slice { start : Z; stop : Z }.

(** [np.s_[a:b, c:d]]: a row slice and a column slice. *)
Definition view : Type := (slice * slice)%type.

(** The written extent of a slice, [stop - start]. *)
Definition extent (s : slice) : Z := stop s - start s.

(** How an endpoint of a slice is adjusted to a sequence of length [n]:
    a negative one counts from the end, then both are clamped. *)
Definition adjust (i n : Z) : Z :=
  if i <? 0 then Z.max (i + n) 0 else Z.min i n.

(** [slice.indices(n)]: first selected index and number selected. *)
Definition slice_first (s : slice) (n : nat) : Z := adjust (start s) (Z.of_nat n).

Definition slice_len (s : slice) (n : nat) : nat :=
  Z.to_nat (adjust (stop s) (Z.of_nat n) - adjust (start s) (Z.of_nat n)).

(** [np.zeros(shape)] and friends: a constant array. *)
Definition full {A} (shape : nat * nat) (a : A) : ndarray A :=
  mk_array (fst shape) (snd shape) (fun _ _ => a).

(** [np.zeros(shape, dtype)]: negative dimensions are not allowed. *)
Definition zeros {A} (shape : Z * Z) (zero : A) : result (ndarray A) :=
  if (0 <=? fst shape) && (0 <=? snd shape)
  then Ok (full (Z.to_nat (fst shape), Z.to_nat (snd shape)) zero)
  else Raise ValueError.

(** [arr["field"]]: the array of one field of a structured array. *)
Definition field {A B} (f : A -> B) (a : ndarray A) : ndarray B :=
  mk_array (nrows a) (ncols a) (fun i j => f (item a i j)).

(** An integer index along an axis of length [n]. *)
Definition norm_index (i : Z) (n : nat) : result Z :=
  if (0 <=? i) && (i <? Z.of_nat n) then Ok i
  else if (- Z.of_nat n <=? i) && (i <? 0) then Ok (i + Z.of_nat n)
  else Raise IndexError.

(** [arr[i, j]] *)
Definition getitem {A} (a : ndarray A) (ij : Z * Z) : result A :=
  i <- norm_index (fst ij) (nrows a) ;;
  j <- norm_index (snd ij) (ncols a) ;;
  Ok (item a i j).

(** [arr[i, j] = f(arr[i, j])], the form a write to some fields of one
    cell takes. *)
Definition update {A} (a : ndarray A) (ij : Z * Z) (f : A -> A)
  : result (ndarray A) :=
  i <- norm_index (fst ij) (nrows a) ;;
  j <- norm_index (snd ij) (ncols a) ;;
  Ok (mk_array (nrows a) (ncols a)
        (fun i' j' => if (i' =? i) && (j' =? j) then f (item a i' j')
                      else item a i' j')).

(** [arr[rows, cols]] for two slices. *)
Definition getview {A} (a : ndarray A) (v : view) : ndarray A :=
  let r0 := slice_first (fst v) (nrows a) in
  let c0 := slice_first (snd v) (ncols a) in
  mk_array (slice_len (fst v) (nrows a)) (slice_len (snd v) (ncols a))
    (fun i j => item a (r0 + i) (c0 + j)).

(** Broadcasting.  Two extents agree when they are equal or one is 1. *)
Definition bdim (a b : nat) : result nat :=
  if (a =? b)%nat then Ok a
  else if (a =? 1)%nat then Ok b
  else if (b =? 1)%nat then Ok a
  else Raise ValueError.

(** An operand of extent [n] along an axis, read at index [i] of the
    broadcast result. *)
Definition bidx (n : nat) (i : Z) : Z := if (n =? 1)%nat then 0 else i.

Definition bitem {A} (a : ndarray A) (i j : Z) : A :=
  item a (bidx (nrows a) i) (bidx (ncols a) j).

(** Can an operand of extent [src] be stored into an axis of extent [dst]? *)
Definition fits (src dst : nat) : bool := (src =? dst)%nat || (src =? 1)%nat.

(** [np.select((c1, c2), (a1, a2), default)] with a scalar default. *)
Definition select {A} (c1 c2 : ndarray bool) (a1 a2 : ndarray A) (default : A)
  : result (ndarray A) :=
  r <- bdim (nrows c1) (nrows c2) ;;
  r <- bdim r (nrows a1) ;;
  r <- bdim r (nrows a2) ;;
  c <- bdim (ncols c1) (ncols c2) ;;
  c <- bdim c (ncols a1) ;;
  c <- bdim c (ncols a2) ;;
  Ok (mk_array r c
        (fun i j => if bitem c1 i j then bitem a1 i j
                    else if bitem c2 i j then bitem a2 i j
                    else default)).

(** [arr[rows, cols] = rhs] *)
Definition setview {A} (a : ndarray A) (v : view) (rhs : ndarray A)
  : result (ndarray A) :=
  let r0 := slice_first (fst v) (nrows a) in
  let c0 := slice_first (snd v) (ncols a) in
  let h := slice_len (fst v) (nrows a) in
  let w := slice_len (snd v) (ncols a) in
  if fits (nrows rhs) h && fits (ncols rhs) w then
    Ok (mk_array (nrows a) (ncols a)
          (fun i j =>
             if (r0 <=? i) && (i <? r0 + Z.of_nat h)
                && (c0 <=? j) && (j <? c0 + Z.of_nat w)
             then bitem rhs (i - r0) (j - c0)
             else item a i j))
  else Raise ValueError.

(** [a |= b] on boolean arrays, in place. *)
Definition ior (a b : ndarray bool) : result (ndarray bool) :=
  if fits (nrows b) (nrows a) && fits (ncols b) (ncols a) then
    Ok (mk_array (nrows a) (ncols a)
          (fun i j => item a i j || bitem b i j))
  else Raise ValueError.

(** [a.shape == (h, w)] *)
Definition has_shape {A} (a : ndarray A) (h w : Z) : Prop :=
  Z.of_nat (nrows a) = h /\ Z.of_nat (ncols a) = w.

(** Is [(i, j)] a cell of [a]? *)
Definition inside {A} (a : ndarray A) (i j : Z) : Prop :=
  0 <= i < Z.of_nat (nrows a) /\ 0 <= j < Z.of_nat (ncols a).

End Np.

(** ** Camera *)

Module Camera.

Record t : Type := mk { x : Z; y : Z }.

Definition get_left_top_pos (self : t) (screen_shape : Z * Z) : Z * Z :=
  (x self - fst screen_shape / 2, y self - snd screen_shape / 2).

Definition get_views (self : t) (world_shape screen_shape : Z * Z)
  : Np.view * Np.view :=
  let '(camera_left, camera_top) := get_left_top_pos self screen_shape in
  let screen_left := Z.max 0 (- camera_left) in
  let screen_top := Z.max 0 (- camera_top) in
  let world_left := Z.max 0 camera_left in
  let world_top := Z.max 0 camera_top in
  let screen_width :=
    Z.min (fst screen_shape - screen_left) (fst world_shape - world_left) in
  let screen_height :=
    Z.min (snd screen_shape - screen_top) (snd world_shape - world_top) in
  let screen_view :=
    (Np.mk_slice screen_top (screen_top + screen_height),
     Np.mk_slice screen_left (screen_left + screen_width)) in
  let world_view :=
    (Np.mk_slice world_top (world_top + screen_height),
     Np.mk_slice world_left (world_left + screen_width)) in
  (screen_view, world_view).

End Camera.

(** ** Tiles, graphics and entities *)

Definition rgb : Type := (Z * Z * Z)%type.

(** [tile_graphic]: the cell format of a console and of a tile's two tones. *)
Record tile_graphic : Type := mk_graphic {
  ch : Z;
  fg : rgb;
  bg : rgb
}.

(** [tile_dt] *)
Record tile_dt : Type := mk_tile {
  move_cost : Z;
  transparent : bool;
  light : tile_graphic;
  dark : tile_graphic
}.

Definition zero_graphic : tile_graphic := mk_graphic 0 (0, 0, 0) (0, 0, 0).
Definition zero_tile : tile_dt := mk_tile 0 false zero_graphic zero_graphic.

(** The identity of a [GameMap] object, as a handle refers to it. *)
Definition ref : Type := nat.

(** [MapLocation]: the three attributes its [__init__] assigns. *)
Record MapLocation : Type := mk_location {
  loc_map : ref;
  loc_x : Z;
  loc_y : Z
}.

(** Modelled from the spec: the base class [Location] ([location.py]) is not
    among the sources; its [xy] property is the position and its [ij]
    property the row/column form of that position. *)
Definition loc_xy (l : MapLocation) : Z * Z := (loc_x l, loc_y l).
Definition loc_ij (l : MapLocation) : Z * Z := (loc_y l, loc_x l).

(** The renderable objects ([graphic.py], not among the sources): what
    [render] reads from one, and the order [min] compares them with. *)
Class Graphics : Type := {
  Graphic : Type;
  char : Graphic -> Z;
  color : Graphic -> rgb;
  graphic_lt : Graphic -> Graphic -> bool
}.

(** [tcod.map.compute_fov] and the constant it is called with. *)
Class Tcod : Type := {
  FOV_RESTRICTIVE : Z;
  compute_fov :
    Np.ndarray bool -> Z * Z -> Z -> bool -> Z -> result (Np.ndarray bool)
}.

Section Entities.
Context `{Graphics}.

(** Modelled from the spec: the fighter capability ([fighter.py], not among
    the sources) is a renderable object that exposes a health value. *)
Record Fighter : Type := mk_fighter {
  fighter_graphic : Graphic;
  hp : Z
}.

(** Modelled from the spec: an actor ([actor.py], not among the sources)
    has an identity, a current position ([None] while it is absent from
    the map) and a fighter capability ([None] when it has none). *)
Record Actor : Type := mk_actor {
  actor_id : nat;
  location : option MapLocation;
  fighter : option Fighter
}.

(** An element of the lists [render] collects: [obj.fighter], which may
    be [None], or an item. *)
Definition obj : Type := option Graphic.

Definition fighter_obj (a : Actor) : obj :=
  match fighter a with
  | Some f => Some (fighter_graphic f)
  | None => None
  end.

(** [a < b] on collected objects; [None] has no order. *)
Definition obj_lt (a b : obj) : result bool :=
  match a, b with
  | Some g1, Some g2 => Ok (graphic_lt g1 g2)
  | _, _ => Raise TypeError
  end.

(** [min(graphics)]: the first of the least elements. *)
Fixpoint min_from (cur : obj) (l : list obj) : result obj :=
  match l with
  | [] => Ok cur
  | o :: l' =>
      b <- obj_lt o cur ;;
      min_from (if b then o else cur) l'
  end.

Definition py_min (l : list obj) : result obj :=
  match l with
  | [] => Raise ValueError
  | o :: l' => min_from o l'
  end.

(** [obj.char, obj.color] *)
Definition glyph_of (o : obj) : result (Z * rgb) :=
  match o with
  | Some g => Ok (char g, color g)
  | None => Raise AttributeError
  end.

End Entities.

Definition pos_eqb (p q : Z * Z) : bool :=
  (fst p =? fst q) && (snd p =? snd q).

(** ** A dict in insertion order, as [defaultdict(list)] is used *)

Section Dict.
Context {V : Type}.

Definition dict : Type := list ((Z * Z) * list V).

(** [d[k].extend(vs)]; [d[k].append(v)] is [dict_extend d k [v]]. *)
Fixpoint dict_extend (d : dict) (k : Z * Z) (vs : list V) : dict :=
  match d with
  | [] => [(k, vs)]
  | (k', vs') :: d' =>
      if pos_eqb k' k then (k', vs' ++ vs) :: d'
      else (k', vs') :: dict_extend d' k vs
  end.

End Dict.

Arguments dict V : clear implicits.

(** ** The console *)

(** [tcod.console.Console], as far as [render] uses it: its width, its
    height and its buffer of cells, indexed by row and column. *)
Record Console : Type := mk_console {
  con_width : Z;
  con_height : Z;
  tiles_rgb : Np.ndarray tile_graphic
}.

Definition set_tiles_rgb (c : Console) (t : Np.ndarray tile_graphic) : Console :=
  mk_console (con_width c) (con_height c) t.

(** The buffer of a console has the console's height and width. *)
Definition console_ok (c : Console) : Prop :=
  Np.has_shape (tiles_rgb c) (con_height c) (con_width c).

(** ** GameMap *)

Module GameMap.
Section GameMap.
Context `{Graphics} `{Tcod}.

(** The attributes of a [GameMap].  [map_id] is the identity of the
    object; [player] is [None] until the attribute has been assigned;
    [actors] lists the set in the order iteration visits it, and [items]
    the dict in its order.  The back reference [model] is left out: no
    method here reads it. *)
Record t : Type := mk {
  map_id : ref;
  width : Z;
  height : Z;
  shape : Z * Z;
  tiles : Np.ndarray tile_dt;
  explored : Np.ndarray bool;
  visible : Np.ndarray bool;
  actors : list Actor;
  items : list ((Z * Z) * list Graphic);
  camera_xy : Z * Z;
  player : option Actor
}.

Definition set_visible (self : t) (v : Np.ndarray bool) : t :=
  mk (map_id self) (width self) (height self) (shape self) (tiles self)
     (explored self) v (actors self) (items self) (camera_xy self)
     (player self).

Definition set_explored (self : t) (e : Np.ndarray bool) : t :=
  mk (map_id self) (width self) (height self) (shape self) (tiles self)
     e (visible self) (actors self) (items self) (camera_xy self)
     (player self).

Definition DARKNESS : tile_graphic := mk_graphic 0 (0, 0, 0) (0, 0, 0).

(** [GameMap(model, width, height)], for the object of identity [id]. *)
Definition init (id : ref) (width height : Z) : result t :=
  let shape := (height, width) in
  tiles <- Np.zeros shape zero_tile ;;
  explored <- Np.zeros shape false ;;
  visible <- Np.zeros shape false ;;
  Ok (mk id width height shape tiles explored visible [] [] (0, 0) None).

Definition camera (self : t) : Camera.t :=
  Camera.mk (fst (camera_xy self)) (snd (camera_xy self)).

(** [actor.location.xy] *)
Definition actor_xy (a : Actor) : result (Z * Z) :=
  match location a with
  | Some l => Ok (loc_xy l)
  | None => Raise AttributeError
  end.

(** [any(actor.location.xy == (x, y) for actor in actors)] *)
Fixpoint any_at (l : list Actor) (xy : Z * Z) : result bool :=
  match l with
  | [] => Ok false
  | a :: l' =>
      p <- actor_xy a ;;
      if pos_eqb p xy then Ok true else any_at l' xy
  end.

Definition is_blocked (self : t) (x y : Z) : result bool * t :=
  (if negb ((0 <=? x) && (x <? width self) && ((0 <=? y) && (y <? height self)))
   then Ok true
   else
     tile <- Np.getitem (tiles self) (y, x) ;;
     if move_cost tile =? 0 then Ok true
     else
       occupied <- any_at (actors self) (x, y) ;;
       if occupied then Ok true else Ok false,
   self).

(** The loop of [fighter_at] over the actors still to visit. *)
Fixpoint first_at (l : list Actor) (xy : Z * Z) : result (option Actor) :=
  match l with
  | [] => Ok None
  | a :: l' =>
      p <- actor_xy a ;;
      if pos_eqb p xy then Ok (Some a) else first_at l' xy
  end.

Definition fighter_at (self : t) (x y : Z) : result (option Actor) * t :=
  (first_at (actors self) (x, y), self).

Definition update_fov (self : t) : result unit * t :=
  match player self with
  | None => (Raise AttributeError, self)
  | Some p =>
      match location p with
      | None => (Ok tt, self)
      | Some l =>
          match compute_fov (Np.field transparent (tiles self)) (loc_ij l)
                  10 true FOV_RESTRICTIVE with
          | Raise e => (Raise e, self)
          | Ok v =>
              let self1 := set_visible self v in
              match Np.ior (explored self1) (visible self1) with
              | Raise e => (Raise e, self1)
              | Ok e' => (Ok tt, set_explored self1 e')
              end
          end
      end
  end.

(** [0 <= obj_x < console.width and 0 <= obj_y < console.height] *)
Definition on_screen (console : Console) (obj_x obj_y : Z) : bool :=
  (0 <=? obj_x) && (obj_x <? con_width console)
  && ((0 <=? obj_y) && (obj_y <? con_height console)).

(** The first statement group of [render]: the terrain drawn from the
    visible and explored areas. *)
Definition render_terrain (self : t) (console : Console)
  : result unit * Console :=
  let screen_shape := (con_width console, con_height console) in
  let '(screen_view, world_view) :=
    Camera.get_views (camera self) (width self, height self) screen_shape in
  match Np.select (Np.getview (visible self) world_view)
                  (Np.getview (explored self) world_view)
                  (Np.getview (Np.field light (tiles self)) world_view)
                  (Np.getview (Np.field dark (tiles self)) world_view)
                  DARKNESS with
  | Raise e => (Raise e, console)
  | Ok rhs =>
      match Np.setview (tiles_rgb console) screen_view rhs with
      | Raise e => (Raise e, console)
      | Ok tiles' => (Ok tt, set_tiles_rgb console tiles')
      end
  end.

(** The loop over [self.actors], from the dict collected so far. *)
Fixpoint collect_actors (self : t) (console : Console) (cam : Z * Z)
         (l : list Actor) (visible_objs : dict obj) : result (dict obj) :=
  match l with
  | [] => Ok visible_objs
  | a :: l' =>
      match location a with
      | None => Raise AttributeError
      | Some loc =>
          let obj_x := loc_x loc - fst cam in
          let obj_y := loc_y loc - snd cam in
          if negb (on_screen console obj_x obj_y)
          then collect_actors self console cam l' visible_objs
          else
            lit <- Np.getitem (visible self) (loc_ij loc) ;;
            if negb lit
            then collect_actors self console cam l' visible_objs
            else collect_actors self console cam l'
                   (dict_extend visible_objs (obj_y, obj_x) [fighter_obj a])
      end
  end.

(** The loop over [self.items.items()]. *)
Fixpoint collect_items (self : t) (console : Console) (cam : Z * Z)
         (l : list ((Z * Z) * list Graphic)) (visible_objs : dict obj)
  : result (dict obj) :=
  match l with
  | [] => Ok visible_objs
  | ((item_x, item_y), its) :: l' =>
      let obj_x := item_x - fst cam in
      let obj_y := item_y - snd cam in
      if negb (on_screen console obj_x obj_y)
      then collect_items self console cam l' visible_objs
      else
        lit <- Np.getitem (visible self) (item_y, item_x) ;;
        if negb lit
        then collect_items self console cam l' visible_objs
        else collect_items self console cam l'
               (dict_extend visible_objs (obj_y, obj_x) (map Some its))
  end.

Definition collect (self : t) (console : Console) (cam : Z * Z)
  : result (dict obj) :=
  d <- collect_actors self console cam (actors self) [] ;;
  collect_items self console cam (items self) d.

(** [tiles_rgb[["ch", "fg"]][ij] = char, color]: the write reaches the
    console and leaves the third field of the cell alone. *)
Definition put_glyph (g : Z * rgb) (cell : tile_graphic) : tile_graphic :=
  mk_graphic (fst g) (snd g) (bg cell).

(** The loop drawing the visible entities. *)
Fixpoint draw (visible_objs : dict obj) (buf : Np.ndarray tile_graphic)
  : result unit * Np.ndarray tile_graphic :=
  match visible_objs with
  | [] => (Ok tt, buf)
  | (ij, graphics) :: rest =>
      match (graphic <- py_min graphics ;;
             g <- glyph_of graphic ;;
             Np.update buf ij (put_glyph g)) with
      | Raise e => (Raise e, buf)
      | Ok buf' => draw rest buf'
      end
  end.

Definition render (self : t) (console : Console) : result unit * Console :=
  let screen_shape := (con_width console, con_height console) in
  let cam := Camera.get_left_top_pos (camera self) screen_shape in
  match render_terrain self console with
  | (Raise e, console1) => (Raise e, console1)
  | (Ok _, console1) =>
      match collect self console1 cam with
      | Raise e => (Raise e, console1)
      | Ok visible_objs =>
          let (r, buf) := draw visible_objs (tiles_rgb console1) in
          (r, set_tiles_rgb console1 buf)
      end
  end.

(** [self[x, y]] *)
Definition getitem (self : t) (key : Z * Z) : result MapLocation * t :=
  (Ok (mk_location (map_id self) (fst key) (snd key)), self).

(** *** What the theorems say about a map *)

(** The three grids have the shape the constructor gave them. *)
Definition grids_ok (self : t) : Prop :=
  Np.has_shape (tiles self) (height self) (width self)
  /\ Np.has_shape (explored self) (height self) (width self)
  /\ Np.has_shape (visible self) (height self) (width self).

Definition in_bounds (self : t) (x y : Z) : Prop :=
  0 <= x < width self /\ 0 <= y < height self.

(** The actor is on the map, at [xy]. *)
Definition stands_at (a : Actor) (xy : Z * Z) : Prop :=
  exists l, location a = Some l /\ loc_xy l = xy.

(** Every actor of the list is on the map. *)
Definition placed (l : list Actor) : Prop :=
  Forall (fun a => location a <> None) l.

(** [o] is an entity of the map at world position [(x, y)]: the fighter of
    an actor standing there, or an item of the list kept under that key. *)
Definition entity_at (self : t) (x y : Z) (o : obj) : Prop :=
  (exists a, In a (actors self) /\ stands_at a (x, y) /\ o = fighter_obj a)
  \/ (exists its g, In ((x, y), its) (items self) /\ In g its /\ o = Some g).

(** What holds of the dict [render] collects, for the camera corner [cam]:
    its keys are apart; each is a cell [(row, column)] of the screen; the
    world cell shown there reads as visible; and the objects listed under
    it are entities of the map at that world cell. *)
Definition collected_ok (self : t) (console : Console) (cam : Z * Z)
           (d : dict obj) : Prop :=
  NoDup (map fst d)
  /\ forall k vs, In (k, vs) d ->
       on_screen console (snd k) (fst k) = true
       /\ Np.getitem (visible self) (fst k + snd cam, snd k + fst cam) = Ok true
       /\ forall o, In o vs -> entity_at self (snd k + fst cam) (fst k + snd cam) o.

(** A map ready to be drawn: every actor of the set stands on a cell of
    the map and has a fighter; every list of items is kept under a cell of
    the map and is not empty. *)
Definition drawable (self : t) : Prop :=
  (forall a, In a (actors self) ->
     exists loc f, location a = Some loc
                   /\ in_bounds self (loc_x loc) (loc_y loc)
                   /\ fighter a = Some f)
  /\ (forall k its, In (k, its) (items self) ->
        in_bounds self (fst k) (snd k) /\ its <> []).

(** The camera window for this console starts no more than a console
    before the map's origin and not beyond the map's far edge. *)
Definition window_meets_map (self : t) (console : Console) : Prop :=
  let cam := Camera.get_left_top_pos (camera self)
               (con_width console, con_height console) in
  - con_width console <= fst cam <= width self
  /\ - con_height console <= snd cam <= height self.


(** Every visible cell is an explored cell. *)
Definition visible_explored (self : t) : Prop :=
  forall i j,
    Np.inside (visible self) i j -> Np.item (visible self) i j = true ->
    Np.inside (explored self) i j /\ Np.item (explored self) i j = true.

(** [compute_fov] answers with an array of the shape of the transparency
    array it was given. *)
Definition fov_keeps_shape : Prop :=
  forall transparency pov radius light_walls algorithm v,
    compute_fov transparency pov radius light_walls algorithm = Ok v ->
    Np.nrows v = Np.nrows transparency /\ Np.ncols v = Np.ncols transparency.

(** Successive calls of [update_fov]: between two calls anything of the
    map may have been changed except [explored], which no other method
    assigns; a call may return or raise. *)
Inductive recomputes : t -> t -> Prop :=
| recomputes_none : forall self, recomputes self self
| recomputes_call : forall self self1 self2,
    recomputes self self1 ->
    explored self2 = explored self1 ->
    recomputes self (snd (update_fov self2)).

End GameMap.
End GameMap.

(** ** Model *)

Module Model.
Section Model.
Context `{Graphics} `{Tcod}.

Record t : Type := mk {
  log : list String.string;
  active_map : GameMap.t
}.

(** [self.player] *)
Definition player (self : t) : result Actor :=
  match GameMap.player (active_map self) with
  | Some p => Ok p
  | None => Raise AttributeError
  end.

(** [report]: the line printed and the model with the line logged. *)
Definition report (self : t) (text : String.string) : String.string * t :=
  (text, mk (log self ++ [text]) (active_map self)).

(** A fighter object is true; [None] is not. *)
Definition is_player_dead (self : t) : result bool :=
  p <- player self ;;
  match fighter p with
  | None => Ok true
  | Some f => Ok (hp f <=? 0)
  end.

(** What a call out of this module does to the model, when it returns. *)
Inductive outcome : Type :=
| Returned (self' : t)
| NoReturn.

(** [self.active_map.scheduler.invoke_next()] and
    [states.GameOver(self).loop()]. *)
Variable invoke_next : t -> outcome.
Variable game_over_loop : t -> outcome.

(** What an observer of [loop] sees, in order: each evaluation of
    [is_player_dead] with its value, each call out with the model it is
    given, and an exception leaving the loop. *)
Inductive event : Type :=
| Check (self : t) (dead : bool)
| CallGameOver (self : t)
| CallInvokeNext (self : t)
| Raised (e : exn).

(** [loop], run for at most [fuel] iterations of its [while True]. *)
Fixpoint loop (fuel : nat) (self : t) : list event :=
  match fuel with
  | O => []
  | S fuel' =>
      match is_player_dead self with
      | Raise e => [Raised e]
      | Ok true =>
          Check self true :: CallGameOver self ::
          match game_over_loop self with
          | Returned self' => loop fuel' self'
          | NoReturn => []
          end
      | Ok false =>
          Check self false :: CallInvokeNext self ::
          match invoke_next self with
          | Returned self' => loop fuel' self'
          | NoReturn => []
          end
      end
  end.

(** The events start with the evaluation of [is_player_dead] on [self]:
    its value, or the exception it raised, and then nothing more. *)
Definition begins_with_check (self : t) (events : list event) : Prop :=
  match events with
  | Check self' dead :: _ => self' = self /\ is_player_dead self = Ok dead
  | [Raised e] => is_player_dead self = Raise e
  | _ => False
  end.

End Model.
End Model.

(** ** A floor to run the definitions on *)

Module Sample.

(** Renderables that carry a character, a colour and a render order, and
    compare by the order. *)
Record glyph : Type := mk_glyph {
  glyph_char : Z;
  glyph_color : rgb;
  render_order : Z
}.

Definition graphics : Graphics := {|
  Graphic := glyph;
  char := glyph_char;
  color := glyph_color;
  graphic_lt := fun a b => render_order a <? render_order b
|}.

(** A field of view that no wall stops: the cells within [radius] rows and
    columns of the point of view. *)
Definition open_fov : Tcod := {|
  FOV_RESTRICTIVE := 12;
  compute_fov := fun transparency pov radius _ _ =>
    Ok (Np.mk_array (Np.nrows transparency) (Np.ncols transparency)
          (fun i j => (Z.abs (i - fst pov) <=? radius)
                      && (Z.abs (j - snd pov) <=? radius)))
|}.

#[local] Existing Instance graphics.
#[local] Existing Instance open_fov.

Definition wall : tile_dt :=
  mk_tile 0 false (mk_graphic 35 (255, 255, 255) (130, 110, 50))
                  (mk_graphic 35 (128, 128, 128) (0, 0, 100)).

Definition ground : tile_dt :=
  mk_tile 1 true (mk_graphic 46 (255, 255, 255) (200, 180, 50))
                 (mk_graphic 46 (128, 128, 128) (50, 50, 150)).

Definition hero : Actor :=
  mk_actor 0%nat (Some (mk_location 7%nat 2 2)) (Some (mk_fighter (mk_glyph 64 (255, 255, 255) 0) 30)).

Definition orc : Actor :=
  mk_actor 1%nat (Some (mk_location 7%nat 4 4)) (Some (mk_fighter (mk_glyph 111 (63, 127, 63) 0) 10)).

Definition troll : Actor :=
  mk_actor 2%nat (Some (mk_location 7%nat 4 4)) (Some (mk_fighter (mk_glyph 84 (0, 127, 0) 0) 16)).

(** An actor that is not on any map. *)
Definition ghost : Actor := mk_actor 3%nat None None.

Definition potion : glyph := mk_glyph 33 (127, 0, 255) 1.

(** Five by five: a wall along the top row; the three top rows in view,
    all of it explored; an orc and a troll on one cell, out of view. *)
Definition floor : GameMap.t :=
  GameMap.mk 7%nat 5 5 (5, 5)
    (Np.mk_array 5 5 (fun i _ => if i =? 0 then wall else ground))
    (Np.mk_array 5 5 (fun _ _ => true))
    (Np.mk_array 5 5 (fun i _ => i <=? 2))
    [hero; orc; troll]
    [((1, 1), [potion]); ((4, 3), [potion])]
    (2, 2)
    (Some hero).

(** The same floor while its player is away. *)
Definition limbo : GameMap.t :=
  GameMap.mk 7%nat 5 5 (5, 5) (GameMap.tiles floor) (GameMap.explored floor)
    (GameMap.visible floor) [orc; troll] (GameMap.items floor) (2, 2)
    (Some ghost).

(** The same floor with the camera two columns past its right edge. *)
Definition adrift : GameMap.t :=
  GameMap.mk 7%nat 5 5 (5, 5) (GameMap.tiles floor) (GameMap.explored floor)
    (GameMap.visible floor) (GameMap.actors floor) (GameMap.items floor)
    (12, 2) (Some hero).

(** The same floor before anything was seen. *)
Definition unseen : GameMap.t :=
  GameMap.set_explored
    (GameMap.set_visible floor (Np.mk_array 5 5 (fun _ _ => false)))
    (Np.mk_array 5 5 (fun _ _ => false)).

Definition seen_once : GameMap.t := snd (GameMap.update_fov unseen).
Definition seen_twice : GameMap.t := snd (GameMap.update_fov seen_once).

Definition screen : Console :=
  mk_console 10 10 (Np.full (10%nat, 10%nat) zero_graphic).

Definition session : Model.t := Model.mk [] floor.

(** A scheduler whose every turn costs the player 20 health. *)
Definition wound (m : Model.t) : Model.t :=
  let map := Model.active_map m in
  let hurt (a : Actor) : Actor :=
    mk_actor (actor_id a) (location a)
      (match fighter a with
       | Some f => Some (mk_fighter (fighter_graphic f) (hp f - 20))
       | None => None
       end) in
  Model.mk (Model.log m)
    (GameMap.mk (GameMap.map_id map) (GameMap.width map) (GameMap.height map)
       (GameMap.shape map) (GameMap.tiles map) (GameMap.explored map)
       (GameMap.visible map) (GameMap.actors map) (GameMap.items map)
       (GameMap.camera_xy map)
       (match GameMap.player map with
        | Some p => Some (hurt p)
        | None => None
        end)).

Definition turn (m : Model.t) : Model.outcome := Model.Returned (wound m).

(** A game-over screen that starts the session again. *)
Definition retry (m : Model.t) : Model.outcome := Model.Returned session.

End Sample.

(** ** Calls in succession, and more cases to run *)

Section Successions.
Context `{Graphics} `{Tcod}.

(** [for text in texts: self.report(text)]: the lines printed, in order,
    and the model left. *)
Fixpoint report_all (self : Model.t) (texts : list String.string)
  : list String.string * Model.t :=
  match texts with
  | [] => ([], self)
  | text :: texts' =>
      let (line, self1) := Model.report self text in
      let (lines, self2) := report_all self1 texts' in
      (line :: lines, self2)
  end.

(** The object [o] is listed in the dict under the key [k]. *)
Definition listed (d : dict obj) (k : Z * Z) (o : obj) : Prop :=
  exists vs, In (k, vs) d /\ In o vs.

End Successions.

Module Cases.

#[local] Existing Instance Sample.graphics.
#[local] Existing Instance Sample.open_fov.

(** The map [GameMap(model, 5, 5)] builds, for the object of identity 7. *)
Definition blank : GameMap.t :=
  GameMap.mk 7%nat 5 5 (5, 5)
    (Np.full (5%nat, 5%nat) zero_tile)
    (Np.full (5%nat, 5%nat) false)
    (Np.full (5%nat, 5%nat) false)
    [] [] (0, 0) None.

(** The session after two turns of [Sample.turn]: the player at -10. *)
Definition lost : Model.t := Sample.wound (Sample.wound Sample.session).

(** A game-over screen that returns and changes nothing. *)
Definition stay (m : Model.t) : Model.outcome := Model.Returned m.

(** A potion, then the orc, then the troll, as collected for one cell. *)
Definition pile : list obj :=
  [Some Sample.potion; fighter_obj Sample.orc; fighter_obj Sample.troll].

(** The player is there to be asked. *)
Definition has_player (m : Model.t) : Prop :=
  exists p, Model.player m = Ok p.

End Cases.

(** * Properties *)

Unset Implicit Arguments.

(** ** Indexing *)

Section NpFacts.
Context {A : Type}.

(** An index inside the axis is used as it is. *)
Lemma norm_index_inside (i : Z) (n : nat) :
  0 <= i < Z.of_nat n -> Np.norm_index i n = Ok i.
Proof.
  intros Hi. unfold Np.norm_index.
  replace (0 <=? i) with true by (symmetry; apply Z.leb_le; lia).
  replace (i <? Z.of_nat n) with true by (symmetry; apply Z.ltb_lt; lia).
  reflexivity.
Qed.

(** Reading a cell of the array. *)
Lemma getitem_inside (a : Np.ndarray A) (i j : Z) :
  Np.inside a i j -> Np.getitem a (i, j) = Ok (Np.item a i j).
Proof.
  intros [Hi Hj]. unfold Np.getitem. simpl.
  rewrite (norm_index_inside _ _ Hi), (norm_index_inside _ _ Hj). reflexivity.
Qed.

End NpFacts.

(** ** Camera *)

Section CameraFacts.

(** C1, as the code has it.  [get_views] returns a screen view and a world
    view whose slices have the same written extent along each axis, the
    [min] of the room left on the screen and of the room left in the
    world.  With sizes that are not negative, that extent is not negative
    when the left (top) edge of the camera window lies no more than a
    screen before the world's origin and not beyond the world's far
    edge. *)
Theorem get_views_shared_extent
  (self : Camera.t) (world_shape screen_shape : Z * Z) :
  let '(camera_left, camera_top) := Camera.get_left_top_pos self screen_shape in
  let '(screen_view, world_view) :=
    Camera.get_views self world_shape screen_shape in
  Np.extent (snd screen_view) = Np.extent (snd world_view)
  /\ Np.extent (fst screen_view) = Np.extent (fst world_view)
  /\ Np.extent (snd screen_view)
     = Z.min (fst screen_shape - Z.max 0 (- camera_left))
             (fst world_shape - Z.max 0 camera_left)
  /\ Np.extent (fst screen_view)
     = Z.min (snd screen_shape - Z.max 0 (- camera_top))
             (snd world_shape - Z.max 0 camera_top)
  /\ (0 <= fst screen_shape -> 0 <= fst world_shape ->
      - fst screen_shape <= camera_left <= fst world_shape ->
      0 <= Np.extent (snd screen_view))
  /\ (0 <= snd screen_shape -> 0 <= snd world_shape ->
      - snd screen_shape <= camera_top <= snd world_shape ->
      0 <= Np.extent (fst screen_view)).
Proof.
  unfold Camera.get_views, Camera.get_left_top_pos, Np.extent. simpl.
  repeat split; lia.
Qed.

(** C1, as the specification states it, fails: a 10 by 10 screen centred at (12, 2)
    over a 5 by 5 world gets views two columns less than empty. *)
Lemma get_views_negative_width :
  ~ (let '(screen_view, world_view) :=
       Camera.get_views (Camera.mk 12 2) (5, 5) (10, 10) in
     Np.extent (snd screen_view) = Np.extent (snd world_view)
     /\ Np.extent (fst screen_view) = Np.extent (fst world_view)
     /\ 0 <= Np.extent (snd screen_view)
     /\ 0 <= Np.extent (fst screen_view)).
Proof.
  vm_compute. intros (_ & _ & Hw & _). apply Hw. reflexivity.
Qed.

(** There the two column slices do not even select as many columns as each
    other: eight of the console's ten, none of the world's five. *)
Lemma negative_width_selects_unevenly :
  let '(screen_view, world_view) :=
    Camera.get_views (Camera.mk 12 2) (5, 5) (10, 10) in
  Np.slice_len (snd screen_view) 10 = 8%nat
  /\ Np.slice_len (snd world_view) 5 = 0%nat.
Proof. vm_compute. split; reflexivity. Qed.

(** X4.  A camera centred on a cell of the world, and a screen of
    non-negative size: the shared extents are not negative. *)
Lemma get_views_centred_in_world
  (self : Camera.t) (world_shape screen_shape : Z * Z) :
  0 <= Camera.x self < fst world_shape ->
  0 <= Camera.y self < snd world_shape ->
  0 <= fst screen_shape -> 0 <= snd screen_shape ->
  let '(screen_view, world_view) :=
    Camera.get_views self world_shape screen_shape in
  0 <= Np.extent (snd screen_view) /\ 0 <= Np.extent (fst screen_view).
Proof.
  intros Hx Hy Hw Hh.
  unfold Camera.get_views, Camera.get_left_top_pos, Np.extent. simpl.
  pose proof (Z.div_le_upper_bound (fst screen_shape) 2 (fst screen_shape)).
  pose proof (Z.div_pos (fst screen_shape) 2).
  pose proof (Z.div_le_upper_bound (snd screen_shape) 2 (snd screen_shape)).
  pose proof (Z.div_pos (snd screen_shape) 2).
  split; lia.
Qed.

End CameraFacts.

(** ** Spatial queries *)

(** [p == q] on pairs of integers. *)
Lemma pos_eqb_eq (p q : Z * Z) : pos_eqb p q = true <-> p = q.
Proof.
  destruct p as [a b], q as [c d]. unfold pos_eqb. simpl.
  rewrite andb_true_iff, !Z.eqb_eq. split.
  - intros [-> ->]. reflexivity.
  - intros [= -> ->]. split; reflexivity.
Qed.

Lemma pos_eqb_neq (p q : Z * Z) : pos_eqb p q = false <-> p <> q.
Proof.
  rewrite <- pos_eqb_eq. destruct (pos_eqb p q); split; congruence.
Qed.

Section SpatialQueries.
Context `{Graphics} `{Tcod}.

(** The first of a list of placed actors has a location. *)
Lemma placed_cons (a : Actor) (l : list Actor) :
  GameMap.placed (a :: l) ->
  (exists loc, location a = Some loc) /\ GameMap.placed l.
Proof.
  intros Hp. inversion Hp as [|? ? Ha Hl]; subst. split; [|exact Hl].
  destruct (location a) as [loc|]; [eauto | congruence].
Qed.

(** On actors that are all on the map, the scan of [is_blocked] answers
    whether one of them stands at the position. *)
Lemma any_at_placed (l : list Actor) (xy : Z * Z) :
  GameMap.placed l ->
  ((exists a, In a l /\ GameMap.stands_at a xy) /\ GameMap.any_at l xy = Ok true)
  \/ (~ (exists a, In a l /\ GameMap.stands_at a xy)
      /\ GameMap.any_at l xy = Ok false).
Proof.
  induction l as [|a l IH]; intros Hp.
  - right. split; [intros (a & [] & _) | reflexivity].
  - apply placed_cons in Hp as [[loc Hloc] Hl]. simpl.
    unfold GameMap.actor_xy. rewrite Hloc. simpl.
    destruct (pos_eqb (loc_xy loc) xy) eqn:E.
    + left. split; [|reflexivity].
      exists a. split; [left; reflexivity|].
      exists loc. split; [exact Hloc | apply pos_eqb_eq, E].
    + destruct (IH Hl) as [[(b & Hb & Hat) Hr] | [Hno Hr]].
      * left. split; [|exact Hr]. exists b. split; [right; exact Hb | exact Hat].
      * right. split; [|exact Hr].
        intros (b & [<- | Hb] & (loc' & Hloc' & Hxy)).
        -- rewrite Hloc in Hloc'. injection Hloc' as <-.
           apply pos_eqb_neq in E. contradiction.
        -- apply Hno. exists b. split; [exact Hb|]. exists loc'. auto.
Qed.

(** C5.  [is_blocked] answers [True] for a position outside
    [0 <= x < width], [0 <= y < height], without reading the grid or the
    actors, so that it cannot fail there.  At a position inside, on a map
    whose tile grid has its shape, it answers [True] where the move cost is
    0; and where it is not, with every actor of the set on the map, it
    answers [True] when some actor stands at the position and [False] when
    none does.  The map is left as it was. *)
Theorem is_blocked_cases (self : GameMap.t) (x y : Z) :
  (~ GameMap.in_bounds self x y ->
   GameMap.is_blocked self x y = (Ok true, self))
  /\ (GameMap.in_bounds self x y ->
      Np.has_shape (GameMap.tiles self) (GameMap.height self) (GameMap.width self) ->
      (move_cost (Np.item (GameMap.tiles self) y x) = 0 ->
       GameMap.is_blocked self x y = (Ok true, self))
      /\ (move_cost (Np.item (GameMap.tiles self) y x) <> 0 ->
          GameMap.placed (GameMap.actors self) ->
          ((exists a, In a (GameMap.actors self) /\ GameMap.stands_at a (x, y)) ->
           GameMap.is_blocked self x y = (Ok true, self))
          /\ (~ (exists a, In a (GameMap.actors self) /\ GameMap.stands_at a (x, y)) ->
              GameMap.is_blocked self x y = (Ok false, self)))).
Proof.
  unfold GameMap.is_blocked, GameMap.in_bounds. split.
  - intros Hout.
    destruct ((0 <=? x) && (x <? GameMap.width self)
              && ((0 <=? y) && (y <? GameMap.height self))) eqn:E;
      [|reflexivity].
    exfalso. apply Hout.
    rewrite !andb_true_iff, !Z.leb_le, !Z.ltb_lt in E. lia.
  - intros Hin [Hrows Hcols].
    replace ((0 <=? x) && (x <? GameMap.width self)
             && ((0 <=? y) && (y <? GameMap.height self))) with true
      by (symmetry; rewrite !andb_true_iff, !Z.leb_le, !Z.ltb_lt; lia).
    simpl negb. cbv iota.
    rewrite getitem_inside by (unfold Np.inside; lia). simpl.
    split.
    + intros ->. reflexivity.
    + intros Hcost Hp.
      apply Z.eqb_neq in Hcost. rewrite Hcost.
      destruct (any_at_placed (GameMap.actors self) (x, y) Hp)
        as [[Hsome ->] | [Hnone ->]]; simpl; split; intros Hx;
        try reflexivity; contradiction.
Qed.

(** The scan of [fighter_at] stops at the first actor, in the order the set
    is iterated, that stands at the position. *)
Lemma first_at_placed (l : list Actor) (xy : Z * Z) (b : Actor) :
  GameMap.placed l -> In b l -> GameMap.stands_at b xy ->
  exists a pre post,
    GameMap.first_at l xy = Ok (Some a)
    /\ l = pre ++ a :: post
    /\ GameMap.stands_at a xy
    /\ (forall c, In c pre -> ~ GameMap.stands_at c xy).
Proof.
  induction l as [|a l IH]; intros Hp Hin Hat; [destruct Hin|].
  apply placed_cons in Hp as [[loc Hloc] Hl]. simpl.
  unfold GameMap.actor_xy. rewrite Hloc. simpl.
  destruct (pos_eqb (loc_xy loc) xy) eqn:E.
  - exists a, [], l.
    split; [reflexivity|]. split; [reflexivity|]. split.
    + exists loc. split; [exact Hloc | apply pos_eqb_eq, E].
    + intros c [].
  - destruct Hin as [<- | Hin].
    + destruct Hat as (loc' & Hloc' & Hxy).
      rewrite Hloc in Hloc'. injection Hloc' as <-.
      apply pos_eqb_neq in E. contradiction.
    + destruct (IH Hl Hin Hat) as (a' & pre & post & Hr & -> & Ha' & Hpre).
      exists a', (a :: pre), post.
      split; [exact Hr|]. split; [reflexivity|]. split; [exact Ha'|].
      intros c [<- | Hc]; [|apply Hpre, Hc].
      intros (loc' & Hloc' & Hxy).
      rewrite Hloc in Hloc'. injection Hloc' as <-.
      apply pos_eqb_neq in E. contradiction.
Qed.

(** C8.  With two different actors of the set at one cell (and every actor
    of the set on the map), [fighter_at] does not fail: it returns the
    first actor, in the order the set is iterated, that stands at the cell,
    and leaves the map as it was, so that asking again on the map it
    returns gives that actor again; and the answer is the same on any map
    with these actors, whatever its other attributes. *)
Theorem fighter_at_two_actors
  (self : GameMap.t) (x y : Z) (a1 a2 : Actor) :
  GameMap.placed (GameMap.actors self) ->
  In a1 (GameMap.actors self) -> In a2 (GameMap.actors self) ->
  actor_id a1 <> actor_id a2 ->
  GameMap.stands_at a1 (x, y) -> GameMap.stands_at a2 (x, y) ->
  exists a pre post,
    GameMap.fighter_at self x y = (Ok (Some a), self)
    /\ GameMap.actors self = pre ++ a :: post
    /\ GameMap.stands_at a (x, y)
    /\ (forall c, In c pre -> ~ GameMap.stands_at c (x, y))
    /\ GameMap.fighter_at (snd (GameMap.fighter_at self x y)) x y
       = (Ok (Some a), self)
    /\ (forall other : GameMap.t,
          GameMap.actors other = GameMap.actors self ->
          fst (GameMap.fighter_at other x y) = Ok (Some a)).
Proof.
  intros Hp H1 _ _ Hat1 _.
  destruct (first_at_placed _ _ _ Hp H1 Hat1) as (a & pre & post & Hr & Hl & Ha & Hpre).
  exists a, pre, post. unfold GameMap.fighter_at. simpl.
  rewrite Hr. repeat split; auto.
  intros other ->. exact Hr.
Qed.

(** C10.  For every pair of integers, inside the grid or not, [self[x, y]]
    succeeds: the handle it returns refers to the map it was asked of and
    carries the two integers as they were given, and the map is left as it
    was. *)
Theorem getitem_handle (self : GameMap.t) (x y : Z) :
  exists handle,
    GameMap.getitem self (x, y) = (Ok handle, self)
    /\ loc_map handle = GameMap.map_id self
    /\ loc_x handle = x
    /\ loc_y handle = y.
Proof.
  eexists. unfold GameMap.getitem. simpl. repeat split.
Qed.

End SpatialQueries.

(** ** Visibility *)

Section Visibility.
Context `{Graphics} `{Tcod}.

(** [a |= b] never clears a cell of [a], and keeps its shape. *)
Lemma ior_keeps (a b a' : Np.ndarray bool) :
  Np.ior a b = Ok a' ->
  Np.nrows a' = Np.nrows a /\ Np.ncols a' = Np.ncols a
  /\ forall i j, Np.item a' i j = Np.item a i j || Np.bitem b i j.
Proof.
  unfold Np.ior.
  destruct (Np.fits (Np.nrows b) (Np.nrows a) && Np.fits (Np.ncols b) (Np.ncols a));
    [|discriminate].
  intros [= <-]. simpl. auto.
Qed.

(** Where the operand has the shape of the target, broadcasting reads the
    cell of the same index. *)
Lemma bitem_inside {A : Type} (b : Np.ndarray A) (i j : Z) :
  Np.inside b i j -> Np.bitem b i j = Np.item b i j.
Proof.
  intros [Hi Hj]. unfold Np.bitem, Np.bidx.
  destruct (Nat.eqb_spec (Np.nrows b) 1) as [E1|_];
    destruct (Nat.eqb_spec (Np.ncols b) 1) as [E2|_];
    try rewrite E1 in Hi; try rewrite E2 in Hj;
    f_equal; lia.
Qed.

(** One call: [explored] keeps its shape and every cell that was set,
    whether the call returns or raises. *)
Lemma update_fov_explored_grows (self : GameMap.t) :
  Np.nrows (GameMap.explored (snd (GameMap.update_fov self)))
  = Np.nrows (GameMap.explored self)
  /\ Np.ncols (GameMap.explored (snd (GameMap.update_fov self)))
     = Np.ncols (GameMap.explored self)
  /\ forall i j,
       Np.item (GameMap.explored self) i j = true ->
       Np.item (GameMap.explored (snd (GameMap.update_fov self))) i j = true.
Proof.
  unfold GameMap.update_fov.
  destruct (GameMap.player self) as [p|]; [|simpl; auto].
  destruct (location p) as [l|]; [|simpl; auto].
  destruct (compute_fov _ _ _ _ _) as [v|e]; [|simpl; auto].
  cbv zeta.
  destruct (Np.ior _ _) as [e'|e] eqn:E; [|simpl; auto].
  apply ior_keeps in E as (Hr & Hc & Hcell). simpl in *.
  repeat split; auto.
  intros i j Hij. rewrite Hcell, Hij. reflexivity.
Qed.

(** C2.  Over any succession of calls of [update_fov], returning or
    raising, with anything but [explored] changed between them, [explored]
    keeps its shape and every cell of it that was true is still true. *)
Theorem explored_monotone (self self' : GameMap.t) :
  GameMap.recomputes self self' ->
  Np.nrows (GameMap.explored self') = Np.nrows (GameMap.explored self)
  /\ Np.ncols (GameMap.explored self') = Np.ncols (GameMap.explored self)
  /\ forall i j,
       Np.item (GameMap.explored self) i j = true ->
       Np.item (GameMap.explored self') i j = true.
Proof.
  induction 1 as [self | self self1 self2 Hrec (IHr & IHc & IHcell) Hsame].
  - auto.
  - destruct (update_fov_explored_grows self2) as (Hr & Hc & Hcell).
    rewrite Hsame in Hr, Hc, Hcell.
    repeat split; try congruence.
    intros i j Hij. apply Hcell, IHcell, Hij.
Qed.

(** C4.  With the player absent from the map, [update_fov] returns without
    an exception and the map it leaves is the map it found: [visible] and
    [explored] among the rest. *)
Theorem update_fov_absent_player (self : GameMap.t) (p : Actor) :
  GameMap.player self = Some p -> location p = None ->
  GameMap.update_fov self = (Ok tt, self)
  /\ GameMap.visible (snd (GameMap.update_fov self)) = GameMap.visible self
  /\ GameMap.explored (snd (GameMap.update_fov self)) = GameMap.explored self.
Proof.
  intros Hp Hl. unfold GameMap.update_fov. rewrite Hp, Hl. auto.
Qed.

(** C3.  On a map whose grids have their shape, with a [compute_fov] that
    answers in the shape it was asked in, every completed [update_fov]
    leaves every visible cell explored: outright when it recomputed, and
    because it was so before when the player is absent and nothing is
    recomputed.  The grids keep their shape. *)
Theorem update_fov_visible_explored (self self' : GameMap.t) :
  GameMap.fov_keeps_shape ->
  GameMap.grids_ok self ->
  (forall p, GameMap.player self = Some p -> location p = None ->
             GameMap.visible_explored self) ->
  GameMap.update_fov self = (Ok tt, self') ->
  GameMap.visible_explored self' /\ GameMap.grids_ok self'.
Proof.
  intros Hfov Hok Hbefore. unfold GameMap.update_fov.
  destruct (GameMap.player self) as [p|] eqn:Hp; [|discriminate].
  destruct (location p) as [l|] eqn:Hl.
  2:{ intros [= <-]. split; [apply (Hbefore p); auto | exact Hok]. }
  destruct (compute_fov _ _ _ _ _) as [v|e] eqn:Hv; [|discriminate].
  cbv zeta.
  destruct (Np.ior _ _) as [e'|e] eqn:E; [|discriminate].
  intros [= <-].
  apply Hfov in Hv as [Hvr Hvc]. simpl in Hvr, Hvc.
  apply ior_keeps in E as (Hr & Hc & Hcell). simpl in Hr, Hc, Hcell.
  destruct Hok as ([Htr Htc] & [Her Hec] & _).
  split.
  - intros i j Hin Hlit. simpl in *.
    assert (Hin' : Np.inside e' i j)
      by (unfold Np.inside in *; rewrite Hr, Hc; lia).
    split; [exact Hin'|].
    rewrite Hcell, (bitem_inside _ _ _ Hin), Hlit. apply orb_true_r.
  - unfold GameMap.grids_ok, Np.has_shape. simpl.
    rewrite Hr, Hc, Hvr, Hvc. auto.
Qed.

(** The constructor starts a map with nothing visible, and its grids in
    shape. *)
Lemma init_visible_explored (id : ref) (width height : Z) (self : GameMap.t) :
  GameMap.init id width height = Ok self ->
  GameMap.visible_explored self /\ GameMap.grids_ok self.
Proof.
  unfold GameMap.init, Np.zeros. simpl.
  destruct ((0 <=? height) && (0 <=? width)) eqn:E; [|discriminate].
  simpl. intros [= <-].
  apply andb_prop in E as [Hh Hw]. apply Z.leb_le in Hh, Hw.
  split.
  - intros i j _ Hlit. simpl in Hlit. discriminate.
  - unfold GameMap.grids_ok, Np.has_shape. simpl. lia.
Qed.

End Visibility.

(** ** The game loop *)

Section GameLoop.
Context `{Graphics} `{Tcod}.
Variable invoke_next : Model.t -> Model.outcome.
Variable game_over_loop : Model.t -> Model.outcome.

Local Abbreviation loop := (Model.loop invoke_next game_over_loop).

(** [is_player_dead] is true when the player has no fighter, or has one
    whose health is not above 0. *)
Lemma is_player_dead_iff (self : Model.t) (dead : bool) :
  Model.is_player_dead self = Ok dead ->
  exists p, Model.player self = Ok p
            /\ (dead = true <->
                fighter p = None
                \/ exists f, fighter p = Some f /\ hp f <= 0).
Proof.
  unfold Model.is_player_dead.
  destruct (Model.player self) as [p|e]; simpl; [|discriminate].
  intros Hd. exists p. split; [reflexivity|].
  destruct (fighter p) as [f|].
  - injection Hd as <-. rewrite Z.leb_le. split.
    + intros Hle. right. exists f. auto.
    + intros [Hno | (f' & [= <-] & Hle)]; [discriminate | exact Hle].
  - injection Hd as <-. split; auto.
Qed.

(** Whatever the loop does, it does after evaluating the predicate. *)
Lemma loop_begins (fuel : nat) (self : Model.t) :
  loop fuel self = [] \/ Model.begins_with_check self (loop fuel self).
Proof.
  destruct fuel as [|fuel]; [left; reflexivity|]. right. simpl.
  destruct (Model.is_player_dead self) as [[|]|e] eqn:E; simpl; auto.
Qed.

(** One iteration of the [while True]. *)
Lemma loop_step (fuel : nat) (self : Model.t) :
  loop (S fuel) self
  = match Model.is_player_dead self with
    | Raise e => [Model.Raised e]
    | Ok true =>
        Model.Check self true :: Model.CallGameOver self ::
        match game_over_loop self with
        | Model.Returned self' => loop fuel self'
        | Model.NoReturn => []
        end
    | Ok false =>
        Model.Check self false :: Model.CallInvokeNext self ::
        match invoke_next self with
        | Model.Returned self' => loop fuel self'
        | Model.NoReturn => []
        end
    end.
Proof. reflexivity. Qed.


(** C9.  Every event of a run of [loop] sits in an iteration of one of two
    forms.  An evaluation of [is_player_dead] carries the value the
    predicate has on the model of that moment (true when the player has no
    fighter or one whose health is at most 0) and is followed at once by
    the call that value selects: the game-over handler for true, the
    scheduler for false.  A call of the scheduler comes right after an
    evaluation to false on the model it is given, and when it returns the
    next event is the evaluation of the predicate on the model it
    returned: the iteration held one scheduler call and nothing else.  A
    call of the game-over handler comes right after an evaluation to true,
    and when it returns the next event is again the evaluation of the
    predicate, before any call of the scheduler. *)
Theorem loop_iterations
  (fuel : nat) (self : Model.t) (pre post : list Model.event) (ev : Model.event) :
  loop fuel self = pre ++ ev :: post ->
  match ev with
  | Model.Check m dead =>
      Model.is_player_dead m = Ok dead
      /\ (exists p, Model.player m = Ok p
                    /\ (dead = true <->
                        fighter p = None
                        \/ exists f, fighter p = Some f /\ hp f <= 0))
      /\ exists post',
           post = (if dead then Model.CallGameOver m else Model.CallInvokeNext m)
                  :: post'
  | Model.CallInvokeNext m =>
      (exists pre', pre = pre' ++ [Model.Check m false])
      /\ (post = []
          \/ exists m', invoke_next m = Model.Returned m'
                        /\ Model.begins_with_check m' post)
  | Model.CallGameOver m =>
      (exists pre', pre = pre' ++ [Model.Check m true])
      /\ (post = []
          \/ exists m', game_over_loop m = Model.Returned m'
                        /\ Model.begins_with_check m' post)
  | Model.Raised e => post = []
  end.
Proof.
  revert self pre. induction fuel as [|fuel IH]; intros self pre Hrun.
  - destruct pre; discriminate.
  - simpl in Hrun.
    destruct (Model.is_player_dead self) as [dead|e] eqn:Hdead.
    2:{ destruct pre as [|? [|? ?]]; try discriminate.
        injection Hrun as <- <-. reflexivity. }
    assert (Hcont :
      forall (call : Model.event) (ext : Model.t -> Model.outcome) rest,
        rest = match ext self with
               | Model.Returned self' => loop fuel self'
               | Model.NoReturn => []
               end ->
        Model.Check self dead :: call :: rest = pre ++ ev :: post ->
        (pre = [] /\ ev = Model.Check self dead /\ post = call :: rest)
        \/ (pre = [Model.Check self dead] /\ ev = call /\ post = rest
            /\ (rest = [] \/ exists m', ext self = Model.Returned m'
                                       /\ Model.begins_with_check m' rest))
        \/ (exists pre' m', pre = Model.Check self dead :: call :: pre'
                            /\ loop fuel m' = pre' ++ ev :: post)).
    { intros call ext rest Hrest Heq.
      destruct pre as [|e1 [|e2 pre']]; simpl in Heq.
      - injection Heq as <- <-. left. auto.
      - injection Heq as <- <- <-. right. left.
        repeat split; auto.
        destruct (ext self) as [m'|]; [|left; exact Hrest].
        destruct (loop_begins fuel m') as [Hnil | Hb].
        + left. congruence.
        + right. exists m'. rewrite Hrest. auto.
      - injection Heq as <- <- Hr. right. right.
        destruct (ext self) as [m'|].
        + exists pre', m'. rewrite <- Hrest, Hr. auto.
        + rewrite Hrest in Hr. destruct pre'; discriminate. }
    destruct dead.
    + destruct (Hcont _ game_over_loop _ eq_refl Hrun)
        as [(-> & -> & ->) | [(-> & -> & -> & Hnext) | (pre' & m' & -> & Hrun')]].
      * split; [exact Hdead|].
        split; [exact (is_player_dead_iff _ _ Hdead) | eauto].
      * split; [exists []; reflexivity | exact Hnext].
      * specialize (IH _ _ Hrun'). destruct ev; auto.
        -- destruct IH as [[pre'' ->] Hn]. split; [|exact Hn].
           exists (Model.Check self true :: Model.CallGameOver self :: pre'').
           reflexivity.
        -- destruct IH as [[pre'' ->] Hn]. split; [|exact Hn].
           exists (Model.Check self true :: Model.CallGameOver self :: pre'').
           reflexivity.
    + destruct (Hcont _ invoke_next _ eq_refl Hrun)
        as [(-> & -> & ->) | [(-> & -> & -> & Hnext) | (pre' & m' & -> & Hrun')]].
      * split; [exact Hdead|].
        split; [exact (is_player_dead_iff _ _ Hdead) | eauto].
      * split; [exists []; reflexivity | exact Hnext].
      * specialize (IH _ _ Hrun'). destruct ev; auto.
        -- destruct IH as [[pre'' ->] Hn]. split; [|exact Hn].
           exists (Model.Check self false :: Model.CallInvokeNext self :: pre'').
           reflexivity.
        -- destruct IH as [[pre'' ->] Hn]. split; [|exact Hn].
           exists (Model.Check self false :: Model.CallInvokeNext self :: pre'').
           reflexivity.
Qed.

End GameLoop.

(** ** Dicts *)

Section DictFacts.
Context {V : Type}.

(** Extending a dict keeps its keys, or adds the new key at the end. *)
Lemma dict_extend_keys (d : dict V) (k : Z * Z) (vs : list V) :
  map fst (dict_extend d k vs) = map fst d
  \/ (~ In k (map fst d) /\ map fst (dict_extend d k vs) = map fst d ++ [k]).
Proof.
  induction d as [|[k' vs'] d IH]; simpl.
  - right. split; [intros [] | reflexivity].
  - destruct (pos_eqb k' k) eqn:E; simpl; [left; reflexivity|].
    apply pos_eqb_neq in E.
    destruct IH as [-> | [Hnot ->]]; [left; reflexivity|].
    right. split; [|reflexivity]. intros [Hk | Hk]; [congruence | contradiction].
Qed.

(** Extending a dict keeps its keys apart. *)
Lemma dict_extend_NoDup (d : dict V) (k : Z * Z) (vs : list V) :
  NoDup (map fst d) -> NoDup (map fst (dict_extend d k vs)).
Proof.
  intros Hd. destruct (dict_extend_keys d k vs) as [-> | [Hnot ->]]; [exact Hd|].
  apply NoDup_app; [exact Hd | repeat constructor; intros [] |].
  intros a Ha [<- | []]. contradiction.
Qed.

(** What an entry of the extended dict is: an entry as it was under
    another key, or the entry of the key with the new values at its end. *)
Lemma dict_extend_In (d : dict V) (k : Z * Z) (vs : list V)
      (k' : Z * Z) (vs' : list V) :
  In (k', vs') (dict_extend d k vs) ->
  In (k', vs') d
  \/ (k' = k /\ exists old, vs' = old ++ vs /\ (old = [] \/ In (k, old) d)).
Proof.
  induction d as [|[k0 vs0] d IH]; simpl.
  - intros [[= <- <-] | []]. right. split; [reflexivity|].
    exists []. split; [reflexivity | left; reflexivity].
  - destruct (pos_eqb k0 k) eqn:E; simpl.
    + apply pos_eqb_eq in E. subst k0.
      intros [[= <- <-] | Hin]; [|left; right; exact Hin].
      right. split; [reflexivity|]. exists vs0. split; [reflexivity|].
      right. left. reflexivity.
    + intros [Heq | Hin]; [left; left; exact Heq|].
      destruct (IH Hin) as [Hd | (-> & old & -> & Hold)]; [left; right; exact Hd|].
      right. split; [reflexivity|]. exists old. split; [reflexivity|].
      destruct Hold as [-> | Hold]; [left; reflexivity | right; right; exact Hold].
Qed.

End DictFacts.

(** ** Views *)

(** An endpoint inside the sequence is left where it is. *)
Lemma adjust_id (i n : Z) : 0 <= i <= n -> Np.adjust i n = i.
Proof. intros Hi. unfold Np.adjust. destruct (Z.ltb_spec i 0); lia. Qed.

(** A slice that lies inside the sequence selects what it says. *)
Lemma slice_proper (a e : Z) (n : nat) :
  0 <= a -> 0 <= e -> a + e <= Z.of_nat n ->
  Np.slice_first (Np.mk_slice a (a + e)) n = a
  /\ Z.of_nat (Np.slice_len (Np.mk_slice a (a + e)) n) = e.
Proof.
  intros Ha He Hn. unfold Np.slice_first, Np.slice_len. simpl.
  rewrite !adjust_id by lia. split; lia.
Qed.

(** Equal extents broadcast to themselves. *)
Lemma bdim_same (n : nat) : Np.bdim n n = Ok n.
Proof. unfold Np.bdim. rewrite Nat.eqb_refl. reflexivity. Qed.

(** [np.select] over operands of one shape: no broadcasting, cell by cell. *)
Lemma select_same_shape {A : Type}
      (c1 c2 : Np.ndarray bool) (a1 a2 : Np.ndarray A) (d : A)
      (rhs : Np.ndarray A) :
  Np.nrows c2 = Np.nrows c1 -> Np.nrows a1 = Np.nrows c1 ->
  Np.nrows a2 = Np.nrows c1 ->
  Np.ncols c2 = Np.ncols c1 -> Np.ncols a1 = Np.ncols c1 ->
  Np.ncols a2 = Np.ncols c1 ->
  Np.select c1 c2 a1 a2 d = Ok rhs ->
  Np.nrows rhs = Np.nrows c1 /\ Np.ncols rhs = Np.ncols c1
  /\ forall i j,
       Np.inside rhs i j ->
       Np.item rhs i j
       = if Np.item c1 i j then Np.item a1 i j
         else if Np.item c2 i j then Np.item a2 i j
         else d.
Proof.
  intros R2 R3 R4 C2 C3 C4. unfold Np.select.
  rewrite R2, R3, R4, C2, C3, C4. repeat (rewrite bdim_same; simpl).
  intros [= <-]. simpl. repeat split.
  intros i j Hin.
  assert (H1 : Np.inside c1 i j) by exact Hin.
  assert (H2 : Np.inside c2 i j) by (unfold Np.inside; rewrite R2, C2; exact Hin).
  assert (H3 : Np.inside a1 i j) by (unfold Np.inside; rewrite R3, C3; exact Hin).
  assert (H4 : Np.inside a2 i j) by (unfold Np.inside; rewrite R4, C4; exact Hin).
  rewrite !bitem_inside by assumption. reflexivity.
Qed.

(** A cell of the target view after [arr[view] = rhs], for a right-hand
    side of the view's shape. *)
Lemma setview_cell {A : Type} (a a' rhs : Np.ndarray A) (v : Np.view) (i j : Z) :
  Np.setview a v rhs = Ok a' ->
  Np.nrows rhs = Np.slice_len (fst v) (Np.nrows a) ->
  Np.ncols rhs = Np.slice_len (snd v) (Np.ncols a) ->
  Np.inside rhs (i - Np.slice_first (fst v) (Np.nrows a))
                (j - Np.slice_first (snd v) (Np.ncols a)) ->
  Np.item a' i j = Np.item rhs (i - Np.slice_first (fst v) (Np.nrows a))
                              (j - Np.slice_first (snd v) (Np.ncols a)).
Proof.
  unfold Np.setview. intros Hset Hr Hc Hin.
  destruct (Np.fits _ _ && Np.fits _ _); [|discriminate].
  injection Hset as <-. simpl.
  rewrite (bitem_inside _ _ _ Hin).
  destruct Hin as [Hi Hj]. rewrite Hr in Hi. rewrite Hc in Hj.
  replace (_ && _ && _ && _) with true; [reflexivity|].
  symmetry. rewrite !andb_true_iff, !Z.leb_le, !Z.ltb_lt. lia.
Qed.

(** Positions can be told apart. *)
Lemma pos_eq_dec (p q : Z * Z) : {p = q} + {p <> q}.
Proof. decide equality; apply Z.eq_dec. Qed.


(** ** Rendering *)

Section Rendering.
Context `{Graphics} `{Tcod}.

(** A write to one cell keeps the shape, and changes that cell only. *)
Lemma update_cells {A : Type} (a a' : Np.ndarray A) (ij : Z * Z) (f : A -> A) :
  Np.update a ij f = Ok a' ->
  Np.nrows a' = Np.nrows a /\ Np.ncols a' = Np.ncols a
  /\ forall i j, Np.item a' i j = Np.item a i j \/ Np.item a' i j = f (Np.item a i j).
Proof.
  unfold Np.update.
  destruct (Np.norm_index (fst ij) (Np.nrows a)) as [i0|]; [|discriminate].
  destruct (Np.norm_index (snd ij) (Np.ncols a)) as [j0|]; [|discriminate].
  simpl. intros [= <-]. simpl. repeat split.
  intros i j. destruct ((i =? i0) && (j =? j0)); auto.
Qed.

(** A write to a cell of the array, addressed from its origin. *)
Lemma update_inside {A : Type} (a a' : Np.ndarray A) (ij : Z * Z) (f : A -> A) :
  Np.inside a (fst ij) (snd ij) ->
  Np.update a ij f = Ok a' ->
  Np.item a' (fst ij) (snd ij) = f (Np.item a (fst ij) (snd ij))
  /\ forall i j, (i, j) <> ij -> Np.item a' i j = Np.item a i j.
Proof.
  intros [Hi Hj]. unfold Np.update.
  rewrite (norm_index_inside _ _ Hi), (norm_index_inside _ _ Hj). simpl.
  intros [= <-]. simpl. rewrite !Z.eqb_refl. simpl. split; [reflexivity|].
  intros i j Hne.
  destruct (Z.eqb_spec i (fst ij)); destruct (Z.eqb_spec j (snd ij)); simpl;
    try reflexivity.
  exfalso. apply Hne. destruct ij. simpl in *. congruence.
Qed.

(** The drawing loop, at whatever point it stops, has kept the shape of
    the buffer and the background of every cell. *)
Lemma draw_keeps_bg (objs : dict obj) (buf buf' : Np.ndarray tile_graphic)
      (r : result unit) :
  GameMap.draw objs buf = (r, buf') ->
  Np.nrows buf' = Np.nrows buf /\ Np.ncols buf' = Np.ncols buf
  /\ forall i j, bg (Np.item buf' i j) = bg (Np.item buf i j).
Proof.
  revert buf. induction objs as [|[ij graphics] rest IH]; intros buf; simpl.
  - intros [= _ <-]. auto.
  - destruct (py_min graphics) as [graphic|e]; simpl;
      [|intros [= _ <-]; auto].
    destruct (glyph_of graphic) as [g|e]; simpl;
      [|intros [= _ <-]; auto].
    destruct (Np.update buf ij (GameMap.put_glyph g)) as [buf1|e] eqn:Hu;
      [|intros [= _ <-]; auto].
    intros Hd. apply IH in Hd as (Hr & Hc & Hbg).
    apply update_cells in Hu as (Hr1 & Hc1 & Hcell).
    repeat split; try congruence.
    intros i j. rewrite Hbg.
    destruct (Hcell i j) as [-> | ->]; reflexivity.
Qed.

(** The drawing loop, when it completes over a dict with keys apart and
    inside the buffer: a cell under a key holds the glyph of the least
    object listed there, over the background it had; any other cell is as
    it was. *)
Lemma draw_cells (objs : dict obj) (buf buf' : Np.ndarray tile_graphic) :
  NoDup (map fst objs) ->
  (forall k vs, In (k, vs) objs -> Np.inside buf (fst k) (snd k)) ->
  GameMap.draw objs buf = (Ok tt, buf') ->
  forall i j,
    (forall vs, In ((i, j), vs) objs ->
       exists g, py_min vs = Ok (Some g)
                 /\ Np.item buf' i j
                    = mk_graphic (char g) (color g) (bg (Np.item buf i j)))
    /\ ((forall vs, ~ In ((i, j), vs) objs) ->
        Np.item buf' i j = Np.item buf i j).
Proof.
  revert buf. induction objs as [|[ij graphics] rest IH]; intros buf Hnd Hin; simpl.
  - intros [= <-] i j. split; [intros vs [] | reflexivity].
  - destruct (py_min graphics) as [graphic|e] eqn:Hmin; simpl; [|discriminate].
    destruct graphic as [g|]; simpl; [|discriminate].
    destruct (Np.update buf ij (GameMap.put_glyph (char g, color g)))
      as [buf1|e] eqn:Hu; [|discriminate].
    intros Hd. simpl in Hnd. apply NoDup_cons_iff in Hnd as [Hfresh Hnd].
    assert (Hij : Np.inside buf (fst ij) (snd ij))
      by (apply (Hin ij graphics); left; reflexivity).
    destruct (update_inside _ _ _ _ Hij Hu) as [Hat Helse].
    destruct (update_cells _ _ _ _ Hu) as (Hr1 & Hc1 & _).
    assert (Hin1 : forall k vs, In (k, vs) rest -> Np.inside buf1 (fst k) (snd k)).
    { intros k vs Hk. unfold Np.inside. rewrite Hr1, Hc1.
      apply (Hin k vs). right. exact Hk. }
    specialize (IH buf1 Hnd Hin1 Hd).
    intros i j. destruct (IH i j) as [IHkey IHfree]. split.
    + intros vs [[= -> ->] | Hrest].
      * exists g. split; [exact Hmin|].
        rewrite IHfree.
        -- simpl in Hat. rewrite Hat. reflexivity.
        -- intros vs' Hvs'. apply Hfresh.
           apply (in_map fst) in Hvs'. exact Hvs'.
      * destruct (IHkey vs Hrest) as (g' & Hg' & Hcell).
        exists g'. split; [exact Hg'|]. rewrite Hcell, Helse; [reflexivity|].
        intros <-. apply Hfresh. apply (in_map fst) in Hrest. exact Hrest.
    + intros Hfree. rewrite IHfree.
      * apply Helse. intros <-. apply (Hfree graphics). left. reflexivity.
      * intros vs Hvs. apply (Hfree vs). right. exact Hvs.
Qed.

(** Extending the dict under the key of a visible world cell on the screen,
    with entities of that cell, keeps it as [collected_ok] says. *)
Lemma collected_ok_extend
      (self : GameMap.t) (console : Console) (cam : Z * Z)
      (d : dict obj) (k : Z * Z) (vs : list obj) :
  GameMap.collected_ok self console cam d ->
  GameMap.on_screen console (snd k) (fst k) = true ->
  Np.getitem (GameMap.visible self) (fst k + snd cam, snd k + fst cam) = Ok true ->
  (forall o, In o vs ->
             GameMap.entity_at self (snd k + fst cam) (fst k + snd cam) o) ->
  GameMap.collected_ok self console cam (dict_extend d k vs).
Proof.
  intros [Hnd Hd] Hscreen Hlit Hvs. split; [apply dict_extend_NoDup, Hnd|].
  intros k' vs' Hin.
  apply dict_extend_In in Hin as [Hold | (-> & old & -> & Hold)];
    [apply Hd, Hold|].
  split; [exact Hscreen|]. split; [exact Hlit|].
  intros o Ho. apply in_app_or in Ho as [Ho | Ho]; [|apply Hvs, Ho].
  destruct Hold as [-> | Hold]; [destruct Ho|].
  destruct (Hd _ _ Hold) as (_ & _ & Hall). apply Hall, Ho.
Qed.

(** The loop over the actors keeps the dict as [collected_ok] says. *)
Lemma collect_actors_ok
      (self : GameMap.t) (console : Console) (cam : Z * Z)
      (l : list Actor) (d d' : dict obj) :
  incl l (GameMap.actors self) ->
  GameMap.collected_ok self console cam d ->
  GameMap.collect_actors self console cam l d = Ok d' ->
  GameMap.collected_ok self console cam d'.
Proof.
  revert d. induction l as [|a l IH]; intros d Hl Hd; simpl.
  - intros [= <-]. exact Hd.
  - assert (Hl' : incl l (GameMap.actors self))
      by (intros b Hb; apply Hl; right; exact Hb).
    destruct (location a) as [loc|] eqn:Hloc; [|discriminate].
    destruct (GameMap.on_screen console (loc_x loc - fst cam) (loc_y loc - snd cam))
      eqn:Hscreen; simpl; [|apply IH; assumption].
    destruct (Np.getitem (GameMap.visible self) (loc_ij loc)) as [lit|e] eqn:Hlit;
      simpl; [|discriminate].
    destruct lit; simpl; [|apply IH; assumption].
    apply IH; [assumption|].
    apply collected_ok_extend; simpl; try assumption.
    + replace (loc_y loc - snd cam + snd cam) with (loc_y loc) by lia.
      replace (loc_x loc - fst cam + fst cam) with (loc_x loc) by lia.
      exact Hlit.
    + intros o [<- | []]. left. exists a.
      split; [apply Hl; left; reflexivity|]. split; [|reflexivity].
      exists loc. split; [exact Hloc|]. unfold loc_xy. f_equal; lia.
Qed.

(** So does the loop over the items. *)
Lemma collect_items_ok
      (self : GameMap.t) (console : Console) (cam : Z * Z)
      (l : list ((Z * Z) * list Graphic)) (d d' : dict obj) :
  incl l (GameMap.items self) ->
  GameMap.collected_ok self console cam d ->
  GameMap.collect_items self console cam l d = Ok d' ->
  GameMap.collected_ok self console cam d'.
Proof.
  revert d. induction l as [|[[item_x item_y] its] l IH]; intros d Hl Hd; simpl.
  - intros [= <-]. exact Hd.
  - assert (Hl' : incl l (GameMap.items self))
      by (intros b Hb; apply Hl; right; exact Hb).
    destruct (GameMap.on_screen console (item_x - fst cam) (item_y - snd cam))
      eqn:Hscreen; simpl; [|apply IH; assumption].
    destruct (Np.getitem (GameMap.visible self) (item_y, item_x)) as [lit|e] eqn:Hlit;
      simpl; [|discriminate].
    destruct lit; simpl; [|apply IH; assumption].
    apply IH; [assumption|].
    replace (item_y, item_x)
      with (item_y - snd cam + snd cam, item_x - fst cam + fst cam) in Hlit
      by (f_equal; lia).
    apply collected_ok_extend; simpl; try assumption.
    intros o Ho. apply in_map_iff in Ho as (g & <- & Hg).
    right. exists its, g.
    replace (item_x - fst cam + fst cam) with item_x by lia.
    replace (item_y - snd cam + snd cam) with item_y by lia.
    split; [apply Hl; left; reflexivity|]. split; [exact Hg | reflexivity].
Qed.

(** The dict [render] collects is as [collected_ok] says. *)
Lemma collect_ok (self : GameMap.t) (console : Console) (cam : Z * Z)
      (objs : dict obj) :
  GameMap.collect self console cam = Ok objs ->
  GameMap.collected_ok self console cam objs.
Proof.
  unfold GameMap.collect.
  destruct (GameMap.collect_actors _ _ _ _ _) as [d|e] eqn:Hd; [|discriminate].
  simpl. intros Hi.
  apply (collect_items_ok _ _ _ _ _ _ (incl_refl _)) in Hi; [exact Hi|].
  apply (collect_actors_ok _ _ _ _ _ _ (incl_refl _)) in Hd; [exact Hd|].
  split; [constructor | intros k vs []].
Qed.

(** The terrain pass, at the screen cell of a world cell that is on the
    screen: the light graphic if visible, else the dark one if explored,
    else darkness. *)
Lemma render_terrain_cell
      (self : GameMap.t) (console console1 : Console) (x y : Z) :
  GameMap.grids_ok self -> console_ok console ->
  GameMap.render_terrain self console = (Ok tt, console1) ->
  GameMap.in_bounds self x y ->
  let cam := Camera.get_left_top_pos (GameMap.camera self)
               (con_width console, con_height console) in
  GameMap.on_screen console (x - fst cam) (y - snd cam) = true ->
  Np.item (tiles_rgb console1) (y - snd cam) (x - fst cam)
  = if Np.item (GameMap.visible self) y x
    then light (Np.item (GameMap.tiles self) y x)
    else if Np.item (GameMap.explored self) y x
         then dark (Np.item (GameMap.tiles self) y x)
         else GameMap.DARKNESS.
Proof.
  intros ([Htr Htc] & [Her Hec] & [Hvr Hvc]) [Hcr Hcc] Hrender [Hx Hy] cam Hscreen.
  unfold GameMap.on_screen in Hscreen.
  rewrite !andb_true_iff, !Z.leb_le, !Z.ltb_lt in Hscreen.
  unfold GameMap.render_terrain in Hrender.
  destruct (Camera.get_views _ _ _) as [sv wv] eqn:Hviews.
  unfold Camera.get_views in Hviews. fold cam in Hviews.
  destruct cam as [cam_x cam_y]. simpl in Hscreen, Hviews.
  injection Hviews as <- <-.
  destruct (Np.select _ _ _ _ _) as [rhs|e] eqn:Hsel; [|discriminate].
  destruct (Np.setview _ _ _) as [tiles'|e] eqn:Hset; [|discriminate].
  injection Hrender as <-. simpl.
  assert (Ner : Np.nrows (GameMap.explored self) = Np.nrows (GameMap.visible self)) by lia.
  assert (Nec : Np.ncols (GameMap.explored self) = Np.ncols (GameMap.visible self)) by lia.
  assert (Ntr : Np.nrows (GameMap.tiles self) = Np.nrows (GameMap.visible self)) by lia.
  assert (Ntc : Np.ncols (GameMap.tiles self) = Np.ncols (GameMap.visible self)) by lia.
  apply select_same_shape in Hsel; simpl; try congruence.
  destruct Hsel as (Hr & Hc & Hcell). simpl in Hr, Hc.
  set (eh := Z.min (con_height console - Z.max 0 (- cam_y))
                   (GameMap.height self - Z.max 0 cam_y)) in *.
  set (ew := Z.min (con_width console - Z.max 0 (- cam_x))
                   (GameMap.width self - Z.max 0 cam_x)) in *.
  destruct (slice_proper (Z.max 0 cam_y) eh (Np.nrows (GameMap.visible self)))
    as [Fwr Lwr]; try lia.
  destruct (slice_proper (Z.max 0 cam_x) ew (Np.ncols (GameMap.visible self)))
    as [Fwc Lwc]; try lia.
  destruct (slice_proper (Z.max 0 (- cam_y)) eh (Np.nrows (tiles_rgb console)))
    as [Fsr Lsr]; try lia.
  destruct (slice_proper (Z.max 0 (- cam_x)) ew (Np.ncols (tiles_rgb console)))
    as [Fsc Lsc]; try lia.
  assert (Hin : Np.inside rhs (y - cam_y - Z.max 0 (- cam_y))
                              (x - cam_x - Z.max 0 (- cam_x)))
    by (unfold Np.inside; rewrite Hr, Hc; lia).
  rewrite (setview_cell _ _ _ _ _ _ Hset); simpl; rewrite ?Fsr, ?Fsc;
    try lia; try exact Hin.
  rewrite (Hcell _ _ Hin). simpl. rewrite ?Ner, ?Nec, ?Ntr, ?Ntc, !Fwr, !Fwc.
  replace (Z.max 0 cam_y + (y - cam_y - Z.max 0 (- cam_y))) with y by lia.
  replace (Z.max 0 cam_x + (x - cam_x - Z.max 0 (- cam_x))) with x by lia.
  reflexivity.
Qed.

(** The terrain pass keeps the console's size and the buffer's shape. *)
Lemma render_terrain_console
      (self : GameMap.t) (console console1 : Console) (r : result unit) :
  GameMap.render_terrain self console = (r, console1) ->
  con_width console1 = con_width console
  /\ con_height console1 = con_height console
  /\ Np.nrows (tiles_rgb console1) = Np.nrows (tiles_rgb console)
  /\ Np.ncols (tiles_rgb console1) = Np.ncols (tiles_rgb console).
Proof.
  unfold GameMap.render_terrain.
  destruct (Camera.get_views _ _ _) as [sv wv].
  destruct (Np.select _ _ _ _ _) as [rhs|e]; [|intros [= _ <-]; auto].
  unfold Np.setview.
  destruct (Np.fits _ _ && Np.fits _ _); intros [= _ <-]; simpl; auto.
Qed.

(** A completed [render] went through its three stages. *)
Lemma render_stages (self : GameMap.t) (console console' : Console) :
  GameMap.render self console = (Ok tt, console') ->
  exists console1 objs,
    GameMap.render_terrain self console = (Ok tt, console1)
    /\ GameMap.collect self console1
         (Camera.get_left_top_pos (GameMap.camera self)
            (con_width console, con_height console)) = Ok objs
    /\ GameMap.draw objs (tiles_rgb console1) = (Ok tt, tiles_rgb console').
Proof.
  unfold GameMap.render.
  destruct (GameMap.render_terrain self console) as [[[]|e] console1] eqn:Ht;
    [|discriminate].
  destruct (GameMap.collect _ _ _) as [objs|e] eqn:Hc; [|discriminate].
  destruct (GameMap.draw _ _) as [r buf] eqn:Hd.
  intros [= -> <-]. exists console1, objs. simpl. auto.
Qed.

(** C6.  After a completed [render] of a map whose grids have their shape
    onto a console whose buffer has its shape:
    the screen cell of a world cell that is explored and not visible holds
    the dark graphic of that cell's tile, whatever entities are there;
    and every cell of the buffer either is as the terrain pass left it, or
    holds the glyph of the least of the objects collected for it, in which
    case the cell is on the screen, the world cell it shows reads as
    visible (which, for a world cell inside the map, is to say that it is
    visible), and those objects are entities of the map at that world
    cell. *)
Theorem render_entities_need_light
        (self : GameMap.t) (console console' : Console) :
  GameMap.grids_ok self -> console_ok console ->
  GameMap.render self console = (Ok tt, console') ->
  let cam := Camera.get_left_top_pos (GameMap.camera self)
               (con_width console, con_height console) in
  (forall x y,
     GameMap.in_bounds self x y ->
     GameMap.on_screen console (x - fst cam) (y - snd cam) = true ->
     Np.item (GameMap.visible self) y x = false ->
     Np.item (GameMap.explored self) y x = true ->
     Np.item (tiles_rgb console') (y - snd cam) (x - fst cam)
     = dark (Np.item (GameMap.tiles self) y x))
  /\ exists console1,
       GameMap.render_terrain self console = (Ok tt, console1)
       /\ forall i j,
            Np.item (tiles_rgb console') i j = Np.item (tiles_rgb console1) i j
            \/ exists vs g,
                 py_min vs = Ok (Some g)
                 /\ Np.item (tiles_rgb console') i j
                    = mk_graphic (char g) (color g)
                        (bg (Np.item (tiles_rgb console1) i j))
                 /\ GameMap.on_screen console j i = true
                 /\ Np.getitem (GameMap.visible self) (i + snd cam, j + fst cam)
                    = Ok true
                 /\ (GameMap.in_bounds self (j + fst cam) (i + snd cam) ->
                     Np.item (GameMap.visible self) (i + snd cam) (j + fst cam)
                     = true)
                 /\ forall o, In o vs ->
                      GameMap.entity_at self (j + fst cam) (i + snd cam) o.
Proof.
  intros Hgrids Hcon Hrender. cbv zeta.
  destruct (render_stages _ _ _ Hrender) as (console1 & objs & Ht & Hc & Hd).
  pose proof (fun x y => render_terrain_cell _ _ _ x y Hgrids Hcon Ht) as Hterrain.
  cbv zeta in Hterrain.
  remember (Camera.get_left_top_pos (GameMap.camera self)
              (con_width console, con_height console)) as cam eqn:Hcam.
  destruct (render_terrain_console _ _ _ _ Ht) as (Hw1 & Hh1 & Hr1 & Hc1).
  apply collect_ok in Hc. destruct Hc as [Hnd Hobjs].
  assert (Hscreen1 : forall a b,
            GameMap.on_screen console1 a b = GameMap.on_screen console a b)
    by (intros a b; unfold GameMap.on_screen; rewrite Hw1, Hh1; reflexivity).
  assert (Hkeys : forall k vs, In (k, vs) objs ->
                    Np.inside (tiles_rgb console1) (fst k) (snd k)).
  { intros k vs Hk. destruct (Hobjs _ _ Hk) as (Hs & _ & _).
    rewrite Hscreen1 in Hs. unfold GameMap.on_screen in Hs.
    rewrite !andb_true_iff, !Z.leb_le, !Z.ltb_lt in Hs.
    destruct Hcon as [Hcr Hcc]. unfold Np.inside. rewrite Hr1, Hc1. lia. }
  pose proof (draw_cells _ _ _ Hnd Hkeys Hd) as Hdraw.
  split.
  - intros x y Hin Hscreen Hdark Hseen.
    destruct (Hdraw (y - snd cam) (x - fst cam)) as [_ Hfree].
    rewrite Hfree.
    + rewrite (Hterrain _ _ Hin Hscreen), Hdark, Hseen. reflexivity.
    + intros vs Hvs. destruct (Hobjs _ _ Hvs) as (_ & Hlit & _).
      simpl in Hlit.
      replace (y - snd cam + snd cam) with y in Hlit by lia.
      replace (x - fst cam + fst cam) with x in Hlit by lia.
      rewrite getitem_inside in Hlit; [congruence|].
      destruct Hgrids as (_ & _ & [Hvr Hvc]). destruct Hin.
      unfold Np.inside. lia.
  - exists console1. split; [exact Ht|]. intros i j.
    destruct (Hdraw i j) as [Hkey Hfree].
    destruct (in_dec pos_eq_dec (i, j) (map fst objs)) as [Hin | Hout].
    + apply in_map_iff in Hin as ([k vs] & Hk & Hin). simpl in Hk. subst k.
      destruct (Hkey vs Hin) as (g & Hg & Hcell).
      destruct (Hobjs _ _ Hin) as (Hs & Hlit & Hents). simpl in Hs, Hlit, Hents.
      rewrite Hscreen1 in Hs.
      right. exists vs, g.
      split; [exact Hg|]. split; [exact Hcell|]. split; [exact Hs|].
      split; [exact Hlit|]. split; [|exact Hents].
      intros [Hx Hy]. destruct Hgrids as (_ & _ & [Hvr Hvc]).
      rewrite getitem_inside in Hlit by (unfold Np.inside; lia).
      congruence.
    + left. apply Hfree. intros vs Hvs. apply Hout.
      apply (in_map fst) in Hvs. exact Hvs.
Qed.

(** C7.  Whatever [render] returns, the background of every cell of the
    buffer is the one the terrain pass wrote; and when it completes on a
    console whose buffer has its shape, a cell for which objects were
    collected holds the character and colour of the least of them over
    that background. *)
Theorem render_glyph_keeps_background
        (self : GameMap.t) (console console2 : Console) (r : result unit) :
  GameMap.render self console = (r, console2) ->
  exists r1 console1,
    GameMap.render_terrain self console = (r1, console1)
    /\ (forall i j,
          bg (Np.item (tiles_rgb console2) i j)
          = bg (Np.item (tiles_rgb console1) i j))
    /\ (r = Ok tt -> console_ok console ->
        exists objs,
          GameMap.collect self console1
            (Camera.get_left_top_pos (GameMap.camera self)
               (con_width console, con_height console)) = Ok objs
          /\ forall i j vs,
               In ((i, j), vs) objs ->
               exists g,
                 py_min vs = Ok (Some g)
                 /\ Np.item (tiles_rgb console2) i j
                    = mk_graphic (char g) (color g)
                        (bg (Np.item (tiles_rgb console1) i j))).
Proof.
  intros Hrender.
  destruct (GameMap.render_terrain self console) as [r1 console1] eqn:Ht.
  exists r1, console1. split; [reflexivity|]. split.
  - unfold GameMap.render in Hrender. rewrite Ht in Hrender.
    destruct r1 as [[]|e]; [|injection Hrender as _ <-; reflexivity].
    destruct (GameMap.collect _ _ _) as [objs|e];
      [|injection Hrender as _ <-; reflexivity].
    destruct (GameMap.draw _ _) as [r' buf] eqn:Hd.
    injection Hrender as _ <-. simpl.
    apply draw_keeps_bg in Hd as (_ & _ & Hbg). exact Hbg.
  - intros -> Hcon.
    destruct (render_stages _ _ _ Hrender) as (console1' & objs & Ht' & Hc & Hd).
    rewrite Ht in Ht'. injection Ht' as -> <-.
    exists objs. split; [exact Hc|].
    destruct (render_terrain_console _ _ _ _ Ht) as (Hw1 & Hh1 & Hr1 & Hc1).
    apply collect_ok in Hc. destruct Hc as [Hnd Hobjs].
    assert (Hkeys : forall k vs, In (k, vs) objs ->
                      Np.inside (tiles_rgb console1) (fst k) (snd k)).
    { intros k vs Hk. destruct (Hobjs _ _ Hk) as (Hs & _ & _).
      unfold GameMap.on_screen in Hs. rewrite Hw1, Hh1 in Hs.
      rewrite !andb_true_iff, !Z.leb_le, !Z.ltb_lt in Hs.
      destruct Hcon as [Hcr Hcc]. unfold Np.inside. rewrite Hr1, Hc1. lia. }
    intros i j vs Hin.
    destruct (draw_cells _ _ _ Hnd Hkeys Hd i j) as [Hkey _].
    apply Hkey, Hin.
Qed.










End Rendering.

(** ** The sample floor *)

Section OnTheSample.
#[local] Existing Instance Sample.graphics.
#[local] Existing Instance Sample.open_fov.

Lemma open_fov_keeps_shape : GameMap.fov_keeps_shape.
Proof.
  intros transparency pov radius light_walls algorithm v. simpl.
  intros [= <-]. simpl. auto.
Qed.

Lemma floor_grids_ok : GameMap.grids_ok Sample.floor.
Proof. repeat split. Qed.

Lemma screen_ok : console_ok Sample.screen.
Proof. split; reflexivity. Qed.

(** The extents of the views of a camera in the middle of a 5 by 5 world,
    for a 10 by 10 screen. *)
Lemma get_views_shared_extent_witness :
  let '(screen_view, world_view) :=
    Camera.get_views (Camera.mk 2 2) (5, 5) (10, 10) in
  0 <= Np.extent (snd screen_view) /\ 0 <= Np.extent (fst screen_view).
Proof.
  pose proof (get_views_shared_extent (Camera.mk 2 2) (5, 5) (10, 10)) as Hv.
  simpl in Hv. destruct Hv as (_ & _ & _ & _ & Hw & Hh).
  simpl. split; [apply Hw | apply Hh]; lia.
Defined.

(** Two recomputes in a row keep the far corner explored. *)
Lemma explored_monotone_witness :
  GameMap.recomputes Sample.seen_once Sample.seen_twice
  /\ Np.item (GameMap.explored Sample.seen_once) 4 4 = true
  /\ Np.item (GameMap.explored Sample.seen_twice) 4 4 = true.
Proof.
  assert (Hrec : GameMap.recomputes Sample.seen_once Sample.seen_twice)
    by exact (@GameMap.recomputes_call _ _ Sample.seen_once Sample.seen_once
                Sample.seen_once (@GameMap.recomputes_none _ _ Sample.seen_once) eq_refl).
  split; [exact Hrec|]. split; [reflexivity|].
  apply (explored_monotone Sample.seen_once Sample.seen_twice Hrec). reflexivity.
Defined.

(** The player away: nothing happens. *)
Lemma update_fov_absent_player_witness :
  GameMap.update_fov Sample.limbo = (Ok tt, Sample.limbo)
  /\ GameMap.visible (snd (GameMap.update_fov Sample.limbo))
     = GameMap.visible Sample.limbo
  /\ GameMap.explored (snd (GameMap.update_fov Sample.limbo))
     = GameMap.explored Sample.limbo.
Proof.
  exact (update_fov_absent_player Sample.limbo Sample.ghost eq_refl eq_refl).
Defined.

(** The first recompute on the floor before anything was seen. *)
Lemma update_fov_visible_explored_witness :
  GameMap.visible_explored (snd (GameMap.update_fov Sample.unseen))
  /\ GameMap.grids_ok (snd (GameMap.update_fov Sample.unseen)).
Proof.
  apply (update_fov_visible_explored Sample.unseen).
  - exact open_fov_keeps_shape.
  - repeat split.
  - intros p [= <-] Hl. discriminate.
  - reflexivity.
Defined.

(** The orc and the troll share a cell. *)
Lemma fighter_at_two_actors_witness :
  exists a pre post,
    GameMap.fighter_at Sample.floor 4 4 = (Ok (Some a), Sample.floor)
    /\ GameMap.actors Sample.floor = pre ++ a :: post
    /\ GameMap.stands_at a (4, 4)
    /\ (forall c, In c pre -> ~ GameMap.stands_at c (4, 4))
    /\ GameMap.fighter_at (snd (GameMap.fighter_at Sample.floor 4 4)) 4 4
       = (Ok (Some a), Sample.floor)
    /\ (forall other : GameMap.t,
          GameMap.actors other = GameMap.actors Sample.floor ->
          fst (GameMap.fighter_at other 4 4) = Ok (Some a)).
Proof.
  apply (fighter_at_two_actors Sample.floor 4 4 Sample.orc Sample.troll).
  - repeat constructor; discriminate.
  - simpl. auto.
  - simpl. auto.
  - simpl. lia.
  - eexists. split; reflexivity.
  - eexists. split; reflexivity.
Defined.

(** The orc comes first in the set. *)
Example fighter_at_sample :
  fst (GameMap.fighter_at Sample.floor 4 4) = Ok (Some Sample.orc).
Proof. reflexivity. Qed.

(** [render] completes on the sample. *)
Lemma render_sample :
  GameMap.render Sample.floor Sample.screen
  = (Ok tt, snd (GameMap.render Sample.floor Sample.screen)).
Proof. vm_compute. reflexivity. Qed.

(** The cell of the orc and the troll, explored and out of view, shows
    the dark ground. *)
Lemma render_entities_need_light_witness :
  Np.item (tiles_rgb (snd (GameMap.render Sample.floor Sample.screen))) 7 7
  = dark (Np.item (GameMap.tiles Sample.floor) 4 4).
Proof.
  apply (proj1 (render_entities_need_light Sample.floor Sample.screen _
                  floor_grids_ok screen_ok render_sample) 4 4).
  - split; simpl; lia.
  - reflexivity.
  - reflexivity.
  - reflexivity.
Defined.

(** The backgrounds of the rendered sample. *)
Lemma render_glyph_keeps_background_witness :
  exists r1 console1,
    GameMap.render_terrain Sample.floor Sample.screen = (r1, console1)
    /\ (forall i j,
          bg (Np.item (tiles_rgb (snd (GameMap.render Sample.floor Sample.screen))) i j)
          = bg (Np.item (tiles_rgb console1) i j))
    /\ (Ok tt = Ok tt -> console_ok Sample.screen ->
        exists objs,
          GameMap.collect Sample.floor console1
            (Camera.get_left_top_pos (GameMap.camera Sample.floor)
               (con_width Sample.screen, con_height Sample.screen)) = Ok objs
          /\ forall i j vs,
               In ((i, j), vs) objs ->
               exists g,
                 py_min vs = Ok (Some g)
                 /\ Np.item (tiles_rgb (snd (GameMap.render Sample.floor Sample.screen))) i j
                    = mk_graphic (char g) (color g)
                        (bg (Np.item (tiles_rgb console1) i j))).
Proof.
  exact (render_glyph_keeps_background Sample.floor Sample.screen _ _ render_sample).
Defined.

(** The hero and a potion over the lit ground, the dark ground where the
    orc stands, the lit wall, and a cell off the map. *)
Example render_sample_cells :
  let buf := tiles_rgb (snd (GameMap.render Sample.floor Sample.screen)) in
  Np.item buf 5 5 = mk_graphic 64 (255, 255, 255) (200, 180, 50)
  /\ Np.item buf 4 4 = mk_graphic 33 (127, 0, 255) (200, 180, 50)
  /\ Np.item buf 7 7 = mk_graphic 46 (128, 128, 128) (50, 50, 150)
  /\ Np.item buf 3 3 = mk_graphic 35 (255, 255, 255) (130, 110, 50)
  /\ Np.item buf 0 0 = zero_graphic.
Proof. vm_compute. repeat split. Qed.

(** Off the map, a wall, the orc's cell, a free cell. *)
Lemma is_blocked_cases_witness :
  GameMap.is_blocked Sample.floor (-1) 7 = (Ok true, Sample.floor)
  /\ GameMap.is_blocked Sample.floor 3 0 = (Ok true, Sample.floor)
  /\ GameMap.is_blocked Sample.floor 4 4 = (Ok true, Sample.floor)
  /\ GameMap.is_blocked Sample.floor 3 3 = (Ok false, Sample.floor).
Proof.
  assert (Hplaced : GameMap.placed (GameMap.actors Sample.floor))
    by (repeat constructor; discriminate).
  assert (Hshape : Np.has_shape (GameMap.tiles Sample.floor)
                     (GameMap.height Sample.floor) (GameMap.width Sample.floor))
    by (split; reflexivity).
  assert (Hin : forall x y, 0 <= x < 5 -> 0 <= y < 5 ->
                           GameMap.in_bounds Sample.floor x y)
    by (intros x y Hx Hy; split; assumption).
  split; [|split; [|split]].
  - apply (proj1 (is_blocked_cases Sample.floor (-1) 7)).
    unfold GameMap.in_bounds. simpl. lia.
  - destruct (proj2 (is_blocked_cases Sample.floor 3 0)
                (Hin 3 0 ltac:(lia) ltac:(lia)) Hshape) as [Hwall _].
    apply Hwall. reflexivity.
  - destruct (proj2 (is_blocked_cases Sample.floor 4 4)
                (Hin 4 4 ltac:(lia) ltac:(lia)) Hshape) as [_ Hfloor].
    destruct (Hfloor ltac:(discriminate) Hplaced) as [Hsome _].
    apply Hsome.
    exists Sample.orc. split; [simpl; auto|]. eexists. split; reflexivity.
  - destruct (proj2 (is_blocked_cases Sample.floor 3 3)
                (Hin 3 3 ltac:(lia) ltac:(lia)) Hshape) as [_ Hfloor].
    destruct (Hfloor ltac:(discriminate) Hplaced) as [_ Hnone].
    apply Hnone.
    intros (a & Ha & loc & Hloc & Hxy).
    simpl in Ha. destruct Ha as [<- | [<- | [<- | []]]];
      injection Hloc as <-; discriminate.
Defined.

(** Two turns kill the player; the game-over screen starts again; the
    next thing the loop does is evaluate the predicate. *)
Lemma loop_iterations_witness :
  let m1 := Sample.wound Sample.session in
  let m2 := Sample.wound m1 in
  (exists pre',
     [Model.Check Sample.session false; Model.CallInvokeNext Sample.session;
      Model.Check m1 false; Model.CallInvokeNext m1; Model.Check m2 true]
     = pre' ++ [Model.Check m2 true])
  /\ ([Model.Check Sample.session false; Model.CallInvokeNext Sample.session] = []
      \/ exists m', Sample.retry m2 = Model.Returned m'
                    /\ Model.begins_with_check m'
                         [Model.Check Sample.session false;
                          Model.CallInvokeNext Sample.session]).
Proof.
  exact (loop_iterations Sample.turn Sample.retry 4 Sample.session
           [Model.Check Sample.session false; Model.CallInvokeNext Sample.session;
            Model.Check (Sample.wound Sample.session) false;
            Model.CallInvokeNext (Sample.wound Sample.session);
            Model.Check (Sample.wound (Sample.wound Sample.session)) true]
           [Model.Check Sample.session false; Model.CallInvokeNext Sample.session]
           (Model.CallGameOver (Sample.wound (Sample.wound Sample.session)))
           eq_refl).
Defined.

(** World 5 by 5, screen 10 by 10, camera at (2, 2). *)
Example get_views_scenario :
  Camera.get_views (Camera.mk 2 2) (5, 5) (10, 10)
  = ((Np.mk_slice 3 8, Np.mk_slice 3 8), (Np.mk_slice 0 5, Np.mk_slice 0 5)).
Proof. reflexivity. Qed.

(** With the camera past the right edge, so that the views have a negative
    extent, the two sides of the terrain assignment have different shapes
    and [render] raises. *)
Example render_camera_adrift :
  fst (GameMap.render Sample.adrift Sample.screen) = Raise ValueError.
Proof. reflexivity. Qed.

(** A handle for a position off the map. *)
Example getitem_outside :
  fst (GameMap.getitem Sample.floor (-3, 99)) = Ok (mk_location 7%nat (-3) 99).
Proof. reflexivity. Qed.

End OnTheSample.

(** ** More on the camera *)

Section CameraMore.

(** X1.  On a screen that is not empty the camera's centre is shown, at
    column [width // 2] and row [height // 2]. *)
Theorem camera_centre_on_screen (self : Camera.t) (screen_shape : Z * Z) :
  0 < fst screen_shape -> 0 < snd screen_shape ->
  let '(camera_left, camera_top) := Camera.get_left_top_pos self screen_shape in
  Camera.x self - camera_left = fst screen_shape / 2
  /\ Camera.y self - camera_top = snd screen_shape / 2
  /\ 0 <= Camera.x self - camera_left < fst screen_shape
  /\ 0 <= Camera.y self - camera_top < snd screen_shape.
Proof.
  intros Hw Hh. unfold Camera.get_left_top_pos.
  pose proof (Z.div_pos (fst screen_shape) 2).
  pose proof (Z.div_lt (fst screen_shape) 2).
  pose proof (Z.div_pos (snd screen_shape) 2).
  pose proof (Z.div_lt (snd screen_shape) 2).
  repeat split; lia.
Qed.

(** X2.  Whatever the camera and the sizes, the columns the world view
    names, from its start up to its stop, are the columns of the world
    that fall on the screen, and the columns the screen view names are the
    columns of the screen that show a column of the world; a column of the
    one and the column of the other it is copied to differ by the camera's
    left edge.  Likewise for rows. *)
Theorem get_views_exact_overlap
        (self : Camera.t) (world_shape screen_shape : Z * Z) (x y : Z) :
  let '(camera_left, camera_top) := Camera.get_left_top_pos self screen_shape in
  let '(screen_view, world_view) :=
    Camera.get_views self world_shape screen_shape in
  (Np.start (snd world_view) <= x < Np.stop (snd world_view)
   <-> 0 <= x < fst world_shape /\ 0 <= x - camera_left < fst screen_shape)
  /\ (Np.start (fst world_view) <= y < Np.stop (fst world_view)
      <-> 0 <= y < snd world_shape /\ 0 <= y - camera_top < snd screen_shape)
  /\ (Np.start (snd screen_view) <= x < Np.stop (snd screen_view)
      <-> 0 <= x < fst screen_shape /\ 0 <= x + camera_left < fst world_shape)
  /\ (Np.start (fst screen_view) <= y < Np.stop (fst screen_view)
      <-> 0 <= y < snd screen_shape /\ 0 <= y + camera_top < snd world_shape)
  /\ Np.start (snd world_view) - Np.start (snd screen_view) = camera_left
  /\ Np.start (fst world_view) - Np.start (fst screen_view) = camera_top.
Proof.
  unfold Camera.get_views, Camera.get_left_top_pos. simpl.
  repeat split; lia.
Qed.

(** X3.  Where the shared extents are not negative, the four slices select,
    of a console and a world of the sizes given, exactly what they name:
    each starts at its written start and selects as many rows or columns
    as its written extent, the same number on the screen as in the
    world. *)
Theorem get_views_select_window
      (self : Camera.t) (world_shape screen_shape : Z * Z)
      (world_rows world_cols screen_rows screen_cols : nat) :
  Z.of_nat world_cols = fst world_shape ->
  Z.of_nat world_rows = snd world_shape ->
  Z.of_nat screen_cols = fst screen_shape ->
  Z.of_nat screen_rows = snd screen_shape ->
  let '(screen_view, world_view) :=
    Camera.get_views self world_shape screen_shape in
  0 <= Np.extent (snd screen_view) -> 0 <= Np.extent (fst screen_view) ->
  (Np.slice_first (snd screen_view) screen_cols = Np.start (snd screen_view)
   /\ Np.slice_first (snd world_view) world_cols = Np.start (snd world_view)
   /\ Np.slice_first (fst screen_view) screen_rows = Np.start (fst screen_view)
   /\ Np.slice_first (fst world_view) world_rows = Np.start (fst world_view))
  /\ (Np.slice_len (snd screen_view) screen_cols
      = Np.slice_len (snd world_view) world_cols
      /\ Z.of_nat (Np.slice_len (snd world_view) world_cols)
         = Np.extent (snd world_view))
  /\ (Np.slice_len (fst screen_view) screen_rows
      = Np.slice_len (fst world_view) world_rows
      /\ Z.of_nat (Np.slice_len (fst world_view) world_rows)
         = Np.extent (fst world_view)).
Proof.
  intros Hwc Hwr Hsc Hsr.
  unfold Camera.get_views, Camera.get_left_top_pos, Np.extent. simpl.
  set (camera_left := Camera.x self - fst screen_shape / 2).
  set (camera_top := Camera.y self - snd screen_shape / 2).
  set (ew := Z.min _ (fst world_shape - _)).
  set (eh := Z.min _ (snd world_shape - _)).
  intros Hw Hh.
  destruct (slice_proper (Z.max 0 (- camera_left)) ew screen_cols) as [F1 L1];
    [lia | lia | lia |].
  destruct (slice_proper (Z.max 0 camera_left) ew world_cols) as [F2 L2];
    [lia | lia | lia |].
  destruct (slice_proper (Z.max 0 (- camera_top)) eh screen_rows) as [F3 L3];
    [lia | lia | lia |].
  destruct (slice_proper (Z.max 0 camera_top) eh world_rows) as [F4 L4];
    [lia | lia | lia |].
  rewrite F1, F2, F3, F4, L2, L4.
  split; [auto|]. split; split; lia.
Qed.

End CameraMore.

(** ** More on the map *)

Section MapMore.
Context `{Graphics} `{Tcod}.


(** X6.  On a map as the constructor leaves it every position is blocked,
    inside the map (no tile can be entered yet) as outside, no fighter is
    found anywhere, and [update_fov] raises [AttributeError] for want of a
    player, leaving the map as it was. *)
Theorem init_blocked_everywhere
        (id : ref) (width height : Z) (self : GameMap.t) (x y : Z) :
  GameMap.init id width height = Ok self ->
  GameMap.is_blocked self x y = (Ok true, self)
  /\ GameMap.fighter_at self x y = (Ok None, self)
  /\ GameMap.update_fov self = (Raise AttributeError, self).
Proof.
  unfold GameMap.init, Np.zeros. simpl.
  destruct ((0 <=? height) && (0 <=? width)) eqn:E; [|discriminate].
  simpl. intros [= <-].
  apply andb_prop in E as [Hh Hw]. apply Z.leb_le in Hh, Hw.
  split; [|split; reflexivity].
  unfold GameMap.is_blocked. simpl.
  destruct ((0 <=? x) && (x <? width) && ((0 <=? y) && (y <? height))) eqn:Hin;
    [|reflexivity].
  rewrite !andb_true_iff, !Z.leb_le, !Z.ltb_lt in Hin. simpl.
  rewrite getitem_inside by (unfold Np.inside; simpl; lia). reflexivity.
Qed.

(** X7.  Whatever the map, an actor [fighter_at] returns is an actor of
    the map and stands at the position asked for. *)
Theorem fighter_at_sound (self : GameMap.t) (x y : Z) (a : Actor) :
  fst (GameMap.fighter_at self x y) = Ok (Some a) ->
  In a (GameMap.actors self) /\ GameMap.stands_at a (x, y).
Proof.
  unfold GameMap.fighter_at. simpl.
  induction (GameMap.actors self) as [|b l IH]; simpl; [discriminate|].
  unfold GameMap.actor_xy.
  destruct (location b) as [loc|] eqn:Hloc; simpl; [|discriminate].
  destruct (pos_eqb (loc_xy loc) (x, y)) eqn:E.
  - intros [= <-]. split; [left; reflexivity|].
    exists loc. split; [exact Hloc | apply pos_eqb_eq, E].
  - intros Hr. destruct (IH Hr) as [Hin Hat]. split; [right; exact Hin | exact Hat].
Qed.

(** X8.  With every actor of the set on the map, [fighter_at] returns
    [None] exactly when no actor stands at the position. *)
Theorem fighter_at_none_iff (self : GameMap.t) (x y : Z) :
  GameMap.placed (GameMap.actors self) ->
  (fst (GameMap.fighter_at self x y) = Ok None
   <-> ~ exists a, In a (GameMap.actors self) /\ GameMap.stands_at a (x, y)).
Proof.
  unfold GameMap.fighter_at. simpl.
  induction (GameMap.actors self) as [|b l IH]; intros Hp; simpl.
  - split; [intros _ (a & [] & _) | reflexivity].
  - apply placed_cons in Hp as [[loc Hloc] Hl].
    unfold GameMap.actor_xy. rewrite Hloc. simpl.
    destruct (pos_eqb (loc_xy loc) (x, y)) eqn:E.
    + split; [discriminate|]. intros Hno. exfalso. apply Hno.
      exists b. split; [left; reflexivity|].
      exists loc. split; [exact Hloc | apply pos_eqb_eq, E].
    + rewrite (IH Hl). apply pos_eqb_neq in E. split.
      * intros Hno (a & [<- | Ha] & Hat).
        -- destruct Hat as (loc' & Hloc' & Hxy). congruence.
        -- apply Hno. eauto.
      * intros Hno (a & Ha & Hat). apply Hno. eauto.
Qed.

(** The scan of [is_blocked] finds what the scan of [fighter_at] finds. *)
Lemma first_at_any_at (l : list Actor) (xy : Z * Z) (a : Actor) :
  GameMap.first_at l xy = Ok (Some a) -> GameMap.any_at l xy = Ok true.
Proof.
  induction l as [|b l IH]; simpl; [discriminate|].
  destruct (GameMap.actor_xy b) as [p|e]; simpl; [|discriminate].
  destruct (pos_eqb p xy); [reflexivity | exact IH].
Qed.

(** X9.  On a map whose tile grid has its shape, a position where
    [fighter_at] finds an actor is a position [is_blocked] reports as
    blocked, inside the map or not, whatever the tile and whether or not
    the other actors are on the map. *)
Theorem fighter_at_blocks (self : GameMap.t) (x y : Z) (a : Actor) :
  Np.has_shape (GameMap.tiles self) (GameMap.height self) (GameMap.width self) ->
  fst (GameMap.fighter_at self x y) = Ok (Some a) ->
  GameMap.is_blocked self x y = (Ok true, self).
Proof.
  intros [Hr Hc] Hfound. unfold GameMap.fighter_at in Hfound. simpl in Hfound.
  apply first_at_any_at in Hfound.
  unfold GameMap.is_blocked. f_equal.
  destruct ((0 <=? x) && (x <? GameMap.width self)
            && ((0 <=? y) && (y <? GameMap.height self))) eqn:Hin;
    [|reflexivity].
  rewrite !andb_true_iff, !Z.leb_le, !Z.ltb_lt in Hin. simpl.
  rewrite getitem_inside by (unfold Np.inside; lia). simpl.
  destruct (move_cost _ =? 0); [reflexivity|].
  rewrite Hfound. reflexivity.
Qed.

End MapMore.

(** ** More on visibility *)

Section VisibilityMore.
Context `{Graphics} `{Tcod}.

(** X12.  Whether it returns or raises, [update_fov] assigns nothing but
    [visible] and [explored]. *)
Theorem update_fov_frame (self : GameMap.t) :
  let self' := snd (GameMap.update_fov self) in
  GameMap.map_id self' = GameMap.map_id self
  /\ GameMap.width self' = GameMap.width self
  /\ GameMap.height self' = GameMap.height self
  /\ GameMap.shape self' = GameMap.shape self
  /\ GameMap.tiles self' = GameMap.tiles self
  /\ GameMap.actors self' = GameMap.actors self
  /\ GameMap.items self' = GameMap.items self
  /\ GameMap.camera_xy self' = GameMap.camera_xy self
  /\ GameMap.player self' = GameMap.player self.
Proof.
  unfold GameMap.update_fov.
  destruct (GameMap.player self) as [p|] eqn:Hp; [|simpl; rewrite Hp; auto 10].
  destruct (location p) as [l|]; [|simpl; rewrite Hp; auto 10].
  destruct (compute_fov _ _ _ _ _) as [v|e]; [|simpl; rewrite Hp; auto 10].
  cbv zeta. destruct (Np.ior _ _) as [e'|e]; simpl; rewrite Hp; auto 10.
Qed.

(** X10.  A recompute that completes with the player on the map, for a
    [compute_fov] that answers in the shape it was asked in and a map
    whose grids have their shape: [visible] is the answer of [compute_fov]
    for the transparency of the tiles, the player's row and column, radius
    10, lit walls and the restrictive algorithm; and a cell of the map is
    explored afterwards exactly when it was explored before or is visible
    now. *)
Theorem update_fov_exact
        (self self' : GameMap.t) (p : Actor) (l : MapLocation) :
  GameMap.fov_keeps_shape ->
  GameMap.grids_ok self ->
  GameMap.player self = Some p -> location p = Some l ->
  GameMap.update_fov self = (Ok tt, self') ->
  compute_fov (Np.field transparent (GameMap.tiles self)) (loc_y l, loc_x l)
    10 true FOV_RESTRICTIVE = Ok (GameMap.visible self')
  /\ forall i j,
       Np.inside (GameMap.explored self) i j ->
       Np.item (GameMap.explored self') i j
       = Np.item (GameMap.explored self) i j
         || Np.item (GameMap.visible self') i j.
Proof.
  intros Hfov Hok Hp Hl. unfold GameMap.update_fov. rewrite Hp, Hl.
  unfold loc_ij.
  destruct (compute_fov _ _ _ _ _) as [v|e] eqn:Hv; [|discriminate].
  cbv zeta.
  destruct (Np.ior _ _) as [e'|e] eqn:E; [|discriminate].
  intros [= <-]. simpl. split; [reflexivity|].
  apply Hfov in Hv as [Hvr Hvc]. simpl in Hvr, Hvc.
  apply ior_keeps in E as (_ & _ & Hcell). simpl in Hcell.
  destruct Hok as ([Htr Htc] & [Her Hec] & _).
  intros i j [Hi Hj]. rewrite Hcell. f_equal.
  apply bitem_inside. unfold Np.inside. lia.
Qed.

(** X11.  Recomputing again at once changes nothing more: the second call
    completes as the first did, [visible] is the same array, and every
    cell of [explored] has the value the first call gave it. *)
Theorem update_fov_idempotent (self self1 : GameMap.t) :
  GameMap.update_fov self = (Ok tt, self1) ->
  exists self2,
    GameMap.update_fov self1 = (Ok tt, self2)
    /\ GameMap.visible self2 = GameMap.visible self1
    /\ forall i j,
         Np.item (GameMap.explored self2) i j
         = Np.item (GameMap.explored self1) i j.
Proof.
  unfold GameMap.update_fov.
  destruct (GameMap.player self) as [p|] eqn:Hp; [|discriminate].
  destruct (location p) as [l|] eqn:Hl.
  2:{ intros [= <-]. exists self. rewrite Hp, Hl. auto. }
  destruct (compute_fov _ _ _ _ _) as [v|e] eqn:Hv; [|discriminate].
  cbv zeta.
  destruct (Np.ior _ _) as [e1|e] eqn:E1; [|discriminate].
  intros [= <-]. simpl. rewrite Hp, Hl, Hv. simpl.
  unfold Np.ior in *. simpl in *.
  destruct (Np.fits (Np.nrows v) (Np.nrows (GameMap.explored self))
            && Np.fits (Np.ncols v) (Np.ncols (GameMap.explored self))) eqn:Hfits;
    [|discriminate].
  injection E1 as <-. simpl. rewrite Hfits.
  eexists. split; [reflexivity|]. simpl. split; [reflexivity|].
  intros i j. destruct (Np.item (GameMap.explored self) i j); simpl;
    [reflexivity | apply orb_diag].
Qed.

End VisibilityMore.

(** ** More on rendering *)

(** A slice [0 : e] with [e] negative selects all but the last [- e]. *)
Lemma slice_len_from_end (e : Z) (n : nat) :
  e < 0 -> 0 < Z.of_nat n + e ->
  Z.of_nat (Np.slice_len (Np.mk_slice 0 (0 + e)) n) = Z.of_nat n + e.
Proof.
  intros He Hn. unfold Np.slice_len, Np.adjust. simpl.
  destruct (Z.ltb_spec e 0); lia.
Qed.

(** A slice that starts at or past the end of the sequence selects
    nothing. *)
Lemma slice_len_past_end (a b : Z) (n : nat) :
  Z.of_nat n <= a -> 0 <= b -> Np.slice_len (Np.mk_slice a b) n = 0%nat.
Proof.
  intros Ha Hb. unfold Np.slice_len, Np.adjust. simpl.
  destruct (Z.ltb_spec b 0); destruct (Z.ltb_spec a 0); lia.
Qed.

Section DictMore.
Context {V : Type}.

(** Extending a dict loses nothing: what was listed under a key still
    is. *)
Lemma dict_extend_keeps (d : dict V) (k k' : Z * Z) (vs new : list V) :
  In (k, vs) d ->
  exists vs', In (k, vs') (dict_extend d k' new) /\ incl vs vs'.
Proof.
  induction d as [|[k0 vs0] d IH]; simpl; [intros []|].
  intros [[= -> ->] | Hin].
  - destruct (pos_eqb k k') eqn:E.
    + exists (vs ++ new). split; [left; reflexivity | apply incl_appl, incl_refl].
    + exists vs. split; [left; reflexivity | apply incl_refl].
  - destruct (pos_eqb k0 k').
    + exists vs. split; [right; exact Hin | apply incl_refl].
    + destruct (IH Hin) as (vs' & Hin' & Hincl).
      exists vs'. split; [right; exact Hin' | exact Hincl].
Qed.

(** The values a dict is extended with are listed under the key. *)
Lemma dict_extend_adds (d : dict V) (k : Z * Z) (new : list V) :
  exists vs', In (k, vs') (dict_extend d k new) /\ incl new vs'.
Proof.
  induction d as [|[k0 vs0] d IH]; simpl.
  - exists new. split; [left; reflexivity | apply incl_refl].
  - destruct (pos_eqb k0 k) eqn:E.
    + apply pos_eqb_eq in E. subst k0.
      exists (vs0 ++ new). split; [left; reflexivity | apply incl_appr, incl_refl].
    + destruct IH as (vs' & Hin & Hincl).
      exists vs'. split; [right; exact Hin | exact Hincl].
Qed.

End DictMore.

Section RenderingMore.
Context `{Graphics} `{Tcod}.

(** The running least of [min]: either the candidate it started with,
    which nothing after it is less than, or a later object that is less
    than the candidate and than all before it, and that nothing after it
    is less than. *)
Lemma min_from_first_least (c g : Graphic) (l : list obj) :
  (forall a b d, graphic_lt a b = true -> graphic_lt b d = true ->
                 graphic_lt a d = true) ->
  (forall a b d, graphic_lt a d = true ->
                 graphic_lt a b = true \/ graphic_lt b d = true) ->
  min_from (Some c) l = Ok (Some g) ->
  (g = c /\ forall g', In (Some g') l -> graphic_lt g' c = false)
  \/ (graphic_lt g c = true
      /\ exists pre post,
           l = pre ++ Some g :: post
           /\ (forall g', In (Some g') pre -> graphic_lt g g' = true)
           /\ (forall g', In (Some g') post -> graphic_lt g' g = false)).
Proof.
  intros Htrans Hneg. revert c.
  induction l as [|o l IH]; intros c; simpl.
  - intros [= ->]. left. split; [reflexivity | intros g' []].
  - destruct o as [x|]; simpl; [|discriminate].
    destruct (graphic_lt x c) eqn:Hxc; intros Hmin.
    + right. destruct (IH _ Hmin) as [[-> Hrest] | (Hgx & pre & post & -> & Hpre & Hpost)].
      * split; [exact Hxc|]. exists [], l. split; [reflexivity|].
        split; [intros g' [] | exact Hrest].
      * split; [exact (Htrans _ _ _ Hgx Hxc)|].
        exists (Some x :: pre), post. split; [reflexivity|].
        split; [|exact Hpost].
        intros g' [[= <-] | Hin]; [exact Hgx | apply Hpre, Hin].
    + destruct (IH _ Hmin) as [[-> Hrest] | (Hgc & pre & post & -> & Hpre & Hpost)].
      * left. split; [reflexivity|].
        intros g' [[= <-] | Hin]; [exact Hxc | apply Hrest, Hin].
      * right. split; [exact Hgc|].
        exists (Some x :: pre), post. split; [reflexivity|].
        split; [|exact Hpost].
        intros g' [[= <-] | Hin]; [|apply Hpre, Hin].
        destruct (Hneg _ x _ Hgc) as [Hgx | Hxc']; [exact Hgx | congruence].
Qed.

(** X17.  Where the order of the renderables is transitive and an object
    less than another is less than, or greater than, any third, the object
    [min] picks from a list is the first of its least: it is less than
    every object before it in the list, and no object after it is less
    than it. *)
Theorem py_min_first_least (l : list obj) (g : Graphic) :
  (forall a b d, graphic_lt a b = true -> graphic_lt b d = true ->
                 graphic_lt a d = true) ->
  (forall a b d, graphic_lt a d = true ->
                 graphic_lt a b = true \/ graphic_lt b d = true) ->
  py_min l = Ok (Some g) ->
  exists pre post,
    l = pre ++ Some g :: post
    /\ (forall g', In (Some g') pre -> graphic_lt g g' = true)
    /\ (forall g', In (Some g') post -> graphic_lt g' g = false).
Proof.
  intros Htrans Hneg. destruct l as [|o l]; simpl; [discriminate|].
  destruct o as [c|].
  2:{ destruct l as [|[x|] l]; simpl; discriminate. }
  intros Hmin.
  destruct (min_from_first_least _ _ _ Htrans Hneg Hmin)
    as [[-> Hrest] | (Hgc & pre & post & -> & Hpre & Hpost)].
  - exists [], l. split; [reflexivity|]. split; [intros g' [] | exact Hrest].
  - exists (Some c :: pre), post. split; [reflexivity|]. split; [|exact Hpost].
    intros g' [[= <-] | Hin]; [exact Hgc | apply Hpre, Hin].
Qed.

(** A camera centred on a cell of the map has a window that meets the
    map, whatever the console. *)
Lemma centred_window_meets_map (self : GameMap.t) (console : Console) :
  console_ok console ->
  GameMap.in_bounds self (fst (GameMap.camera_xy self)) (snd (GameMap.camera_xy self)) ->
  GameMap.window_meets_map self console.
Proof.
  intros [Hr Hc] [Hx Hy].
  unfold GameMap.window_meets_map, Camera.get_left_top_pos, GameMap.camera. simpl.
  pose proof (Z.div_le_upper_bound (con_width console) 2 (con_width console)).
  pose proof (Z.div_pos (con_width console) 2).
  pose proof (Z.div_le_upper_bound (con_height console) 2 (con_height console)).
  pose proof (Z.div_pos (con_height console) 2).
  split; lia.
Qed.

(** The terrain pass writes no cell of the buffer but those that show a
    cell of the map. *)
Lemma render_terrain_outside
      (self : GameMap.t) (console console1 : Console) (r : result unit) (i j : Z) :
  GameMap.grids_ok self -> console_ok console ->
  GameMap.window_meets_map self console ->
  GameMap.render_terrain self console = (r, console1) ->
  let cam := Camera.get_left_top_pos (GameMap.camera self)
               (con_width console, con_height console) in
  ~ GameMap.in_bounds self (j + fst cam) (i + snd cam) ->
  Np.item (tiles_rgb console1) i j = Np.item (tiles_rgb console) i j.
Proof.
  intros ([Htr Htc] & [Her Hec] & [Hvr Hvc]) [Hcr Hcc] Hwin Hrender.
  unfold GameMap.window_meets_map in Hwin. cbv zeta in *.
  unfold GameMap.render_terrain in Hrender.
  destruct (Camera.get_views _ _ _) as [sv wv] eqn:Hviews.
  unfold Camera.get_views in Hviews.
  destruct (Camera.get_left_top_pos _ _) as [cam_x cam_y].
  simpl in Hwin, Hviews |- *. injection Hviews as <- <-.
  destruct (Np.select _ _ _ _ _) as [rhs|e]; [|injection Hrender as _ <-; reflexivity].
  unfold Np.setview in Hrender.
  destruct (Np.fits _ _ && Np.fits _ _); [|injection Hrender as _ <-; reflexivity].
  injection Hrender as _ <-. simpl.
  set (eh := Z.min (con_height console - Z.max 0 (- cam_y))
                   (GameMap.height self - Z.max 0 cam_y)) in *.
  set (ew := Z.min (con_width console - Z.max 0 (- cam_x))
                   (GameMap.width self - Z.max 0 cam_x)) in *.
  destruct (slice_proper (Z.max 0 (- cam_y)) eh (Np.nrows (tiles_rgb console)))
    as [Fsr Lsr]; try lia.
  destruct (slice_proper (Z.max 0 (- cam_x)) ew (Np.ncols (tiles_rgb console)))
    as [Fsc Lsc]; try lia.
  rewrite Fsr, Fsc, Lsr, Lsc. intros Hout.
  match goal with
  | |- (if ?c then _ else _) = _ => destruct c eqn:Hc
  end; [|reflexivity].
  exfalso. apply Hout.
  rewrite !andb_true_iff, !Z.leb_le, !Z.ltb_lt in Hc.
  unfold GameMap.in_bounds. lia.
Qed.

(** An entity of a drawable map is on a cell of the map. *)
Lemma entity_at_in_bounds (self : GameMap.t) (x y : Z) (o : obj) :
  GameMap.drawable self -> GameMap.entity_at self x y o ->
  GameMap.in_bounds self x y.
Proof.
  intros [Hactors Hitems] [(a & Ha & (loc & Hloc & Hxy) & _) | (its & g & Hin & _)].
  - destruct (Hactors a Ha) as (loc' & f & Hloc' & Hb & _).
    rewrite Hloc in Hloc'. injection Hloc' as <-.
    unfold loc_xy in Hxy. injection Hxy as <- <-. exact Hb.
  - apply (Hitems _ _ Hin).
Qed.

(** X13.  After a completed [render] of a map whose grids have their
    shape onto a console whose buffer has its shape, the screen cell of a
    cell of the map that is on the screen and has no entity on it holds
    the tile's light graphic if the cell is visible, its dark graphic if
    it is not visible and explored, and darkness if it is neither. *)
Theorem render_shows_terrain
        (self : GameMap.t) (console console' : Console) (x y : Z) :
  GameMap.grids_ok self -> console_ok console ->
  GameMap.render self console = (Ok tt, console') ->
  let cam := Camera.get_left_top_pos (GameMap.camera self)
               (con_width console, con_height console) in
  GameMap.in_bounds self x y ->
  GameMap.on_screen console (x - fst cam) (y - snd cam) = true ->
  (forall o, ~ GameMap.entity_at self x y o) ->
  Np.item (tiles_rgb console') (y - snd cam) (x - fst cam)
  = if Np.item (GameMap.visible self) y x
    then light (Np.item (GameMap.tiles self) y x)
    else if Np.item (GameMap.explored self) y x
         then dark (Np.item (GameMap.tiles self) y x)
         else GameMap.DARKNESS.
Proof.
  intros Hgrids Hcon Hrender. cbv zeta.
  destruct (render_stages _ _ _ Hrender) as (console1 & objs & Ht & Hc & Hd).
  pose proof (fun x y => render_terrain_cell _ _ _ x y Hgrids Hcon Ht) as Hterrain.
  cbv zeta in Hterrain.
  remember (Camera.get_left_top_pos (GameMap.camera self)
              (con_width console, con_height console)) as cam eqn:Hcam.
  intros Hin Hscreen Hnone.
  destruct (render_terrain_console _ _ _ _ Ht) as (Hw1 & Hh1 & Hr1 & Hc1).
  apply collect_ok in Hc. destruct Hc as [Hnd Hobjs].
  assert (Hkeys : forall k vs, In (k, vs) objs ->
                    Np.inside (tiles_rgb console1) (fst k) (snd k)).
  { intros k vs Hk. destruct (Hobjs _ _ Hk) as (Hs & _ & _).
    unfold GameMap.on_screen in Hs. rewrite Hw1, Hh1 in Hs.
    rewrite !andb_true_iff, !Z.leb_le, !Z.ltb_lt in Hs.
    destruct Hcon as [Hcr Hcc]. unfold Np.inside. rewrite Hr1, Hc1. lia. }
  destruct (draw_cells _ _ _ Hnd Hkeys Hd (y - snd cam) (x - fst cam))
    as [Hkey Hfree].
  rewrite Hfree; [exact (Hterrain _ _ Hin Hscreen)|].
  intros vs Hvs. destruct (Hkey vs Hvs) as (g & Hmin & _).
  destruct (Hobjs _ _ Hvs) as (_ & _ & Hents). simpl in Hents.
  destruct vs as [|o vs]; [discriminate|].
  apply (Hnone o).
  specialize (Hents o (or_introl eq_refl)).
  replace (x - fst cam + fst cam) with x in Hents by lia.
  replace (y - snd cam + snd cam) with y in Hents by lia.
  exact Hents.
Qed.

(** X14.  [render] does not clear the console: after a completed [render]
    of a drawable map whose window meets the map, a cell of the buffer
    that shows no cell of the map holds what it held before. *)
Theorem render_margin_untouched
        (self : GameMap.t) (console console' : Console) (i j : Z) :
  GameMap.grids_ok self -> console_ok console ->
  GameMap.drawable self ->
  GameMap.window_meets_map self console ->
  GameMap.render self console = (Ok tt, console') ->
  let cam := Camera.get_left_top_pos (GameMap.camera self)
               (con_width console, con_height console) in
  ~ GameMap.in_bounds self (j + fst cam) (i + snd cam) ->
  Np.item (tiles_rgb console') i j = Np.item (tiles_rgb console) i j.
Proof.
  intros Hgrids Hcon Hdrawable Hwin Hrender. cbv zeta. intros Hout.
  destruct (render_stages _ _ _ Hrender) as (console1 & objs & Ht & Hc & Hd).
  pose proof (render_terrain_outside _ _ _ _ i j Hgrids Hcon Hwin Ht Hout) as Hterrain.
  destruct (render_terrain_console _ _ _ _ Ht) as (Hw1 & Hh1 & Hr1 & Hc1).
  apply collect_ok in Hc. destruct Hc as [Hnd Hobjs].
  assert (Hkeys : forall k vs, In (k, vs) objs ->
                    Np.inside (tiles_rgb console1) (fst k) (snd k)).
  { intros k vs Hk. destruct (Hobjs _ _ Hk) as (Hs & _ & _).
    unfold GameMap.on_screen in Hs. rewrite Hw1, Hh1 in Hs.
    rewrite !andb_true_iff, !Z.leb_le, !Z.ltb_lt in Hs.
    destruct Hcon as [Hcr Hcc]. unfold Np.inside. rewrite Hr1, Hc1. lia. }
  destruct (draw_cells _ _ _ Hnd Hkeys Hd i j) as [Hkey Hfree].
  rewrite Hfree; [exact Hterrain|].
  intros vs Hvs. destruct (Hkey vs Hvs) as (g & Hmin & _).
  destruct (Hobjs _ _ Hvs) as (_ & _ & Hents). simpl in Hents.
  destruct vs as [|o vs]; [discriminate|].
  apply Hout. apply (entity_at_in_bounds _ _ _ o Hdrawable).
  apply Hents. left. reflexivity.
Qed.

(** X16.  [render] raises [ValueError], before it has written anything,
    when the left edge of the camera window lies beyond the right edge of
    the map by less than the width of the console, or its top edge beyond
    the bottom of the map by less than the height of the console: the
    view of the console then selects columns (or rows) and the view of the
    map none. *)
Theorem render_raises_past_far_edge (self : GameMap.t) (console : Console) :
  GameMap.grids_ok self -> console_ok console ->
  let cam := Camera.get_left_top_pos (GameMap.camera self)
               (con_width console, con_height console) in
  (GameMap.width self < fst cam < GameMap.width self + con_width console
   \/ GameMap.height self < snd cam < GameMap.height self + con_height console) ->
  GameMap.render self console = (Raise ValueError, console).
Proof.
  intros ([Htr Htc] & [Her Hec] & [Hvr Hvc]) [Hcr Hcc]. cbv zeta. intros Hpast.
  assert (Ht : GameMap.render_terrain self console = (Raise ValueError, console)).
  2:{ unfold GameMap.render. rewrite Ht. reflexivity. }
  unfold GameMap.render_terrain.
  destruct (Camera.get_views _ _ _) as [sv wv] eqn:Hviews.
  unfold Camera.get_views in Hviews.
  destruct (Camera.get_left_top_pos _ _) as [cam_x cam_y].
  simpl in Hpast, Hviews. injection Hviews as <- <-.
  assert (Ner : Np.nrows (GameMap.explored self) = Np.nrows (GameMap.visible self)) by lia.
  assert (Nec : Np.ncols (GameMap.explored self) = Np.ncols (GameMap.visible self)) by lia.
  assert (Ntr : Np.nrows (GameMap.tiles self) = Np.nrows (GameMap.visible self)) by lia.
  assert (Ntc : Np.ncols (GameMap.tiles self) = Np.ncols (GameMap.visible self)) by lia.
  unfold Np.select. simpl. rewrite Ner, Nec, Ntr, Ntc.
  repeat (rewrite bdim_same; simpl).
  unfold Np.setview. simpl.
  match goal with
  | |- context [if Np.fits ?p ?q && Np.fits ?r ?s then _ else _] =>
      assert (Hno : Np.fits p q && Np.fits r s = false);
        [|rewrite Hno; reflexivity]
  end.
  apply andb_false_iff. unfold Np.fits.
  destruct Hpast as [Hx | Hy]; [right | left].
  - replace (Z.max 0 (- cam_x)) with 0 by lia.
    replace (Z.max 0 cam_x) with cam_x by lia.
    set (ew := Z.min (con_width console - 0) (GameMap.width self - cam_x)).
    rewrite (slice_len_past_end cam_x (cam_x + ew)) by lia.
    pose proof (slice_len_from_end ew (Np.ncols (tiles_rgb console))) as Hlen.
    destruct (Np.slice_len _ (Np.ncols (tiles_rgb console))); [lia | reflexivity].
  - replace (Z.max 0 (- cam_y)) with 0 by lia.
    replace (Z.max 0 cam_y) with cam_y by lia.
    set (eh := Z.min (con_height console - 0) (GameMap.height self - cam_y)).
    rewrite (slice_len_past_end cam_y (cam_y + eh)) by lia.
    pose proof (slice_len_from_end eh (Np.nrows (tiles_rgb console))) as Hlen.
    destruct (Np.slice_len _ (Np.nrows (tiles_rgb console))); [lia | reflexivity].
Qed.

(** What is listed stays listed through the loop over the actors. *)
Lemma collect_actors_keeps
      (self : GameMap.t) (console : Console) (cam : Z * Z)
      (l : list Actor) (d d' : dict obj) (k : Z * Z) (o : obj) :
  GameMap.collect_actors self console cam l d = Ok d' ->
  listed d k o -> listed d' k o.
Proof.
  revert d. induction l as [|a l IH]; intros d; simpl.
  - intros [= <-] Hd. exact Hd.
  - destruct (location a) as [loc|]; [|discriminate].
    destruct (GameMap.on_screen _ _ _); simpl; [|apply IH].
    destruct (Np.getitem _ _) as [[|]|]; simpl; [|apply IH|discriminate].
    intros Hrun (vs & Hin & Ho). apply (IH _ Hrun).
    destruct (dict_extend_keeps d k (loc_y loc - snd cam, loc_x loc - fst cam)
                vs [fighter_obj a] Hin) as (vs' & Hin' & Hincl).
    exists vs'. split; [exact Hin' | apply Hincl, Ho].
Qed.

(** And through the loop over the items. *)
Lemma collect_items_keeps
      (self : GameMap.t) (console : Console) (cam : Z * Z)
      (l : list ((Z * Z) * list Graphic)) (d d' : dict obj) (k : Z * Z) (o : obj) :
  GameMap.collect_items self console cam l d = Ok d' ->
  listed d k o -> listed d' k o.
Proof.
  revert d. induction l as [|[[item_x item_y] its] l IH]; intros d; simpl.
  - intros [= <-] Hd. exact Hd.
  - destruct (GameMap.on_screen _ _ _); simpl; [|apply IH].
    destruct (Np.getitem _ _) as [[|]|]; simpl; [|apply IH|discriminate].
    intros Hrun (vs & Hin & Ho). apply (IH _ Hrun).
    destruct (dict_extend_keeps d k (item_y - snd cam, item_x - fst cam)
                vs (map Some its) Hin) as (vs' & Hin' & Hincl).
    exists vs'. split; [exact Hin' | apply Hincl, Ho].
Qed.

(** The loop over the actors lists the fighter of every actor that is on
    the screen and reads as visible. *)
Lemma collect_actors_adds
      (self : GameMap.t) (console : Console) (cam : Z * Z)
      (l : list Actor) (d d' : dict obj) (a : Actor) (loc : MapLocation) :
  GameMap.collect_actors self console cam l d = Ok d' ->
  In a l -> location a = Some loc ->
  GameMap.on_screen console (loc_x loc - fst cam) (loc_y loc - snd cam) = true ->
  Np.getitem (GameMap.visible self) (loc_ij loc) = Ok true ->
  listed d' (loc_y loc - snd cam, loc_x loc - fst cam) (fighter_obj a).
Proof.
  revert d. induction l as [|b l IH]; intros d; simpl; [intros _ []|].
  intros Hrun [-> | Hin] Hloc Hscreen Hlit.
  - rewrite Hloc, Hscreen, Hlit in Hrun. simpl in Hrun.
    apply (collect_actors_keeps _ _ _ _ _ _ _ _ Hrun).
    destruct (dict_extend_adds d (loc_y loc - snd cam, loc_x loc - fst cam)
                [fighter_obj a]) as (vs' & Hin' & Hincl).
    exists vs'. split; [exact Hin' | apply Hincl; left; reflexivity].
  - destruct (location b) as [locb|]; [|discriminate].
    destruct (GameMap.on_screen console (loc_x locb - fst cam) (loc_y locb - snd cam));
      simpl in Hrun; [|exact (IH _ Hrun Hin Hloc Hscreen Hlit)].
    destruct (Np.getitem (GameMap.visible self) (loc_ij locb)) as [[|]|];
      simpl in Hrun; [| |discriminate];
      exact (IH _ Hrun Hin Hloc Hscreen Hlit).
Qed.

(** The loop over the items lists every item kept on a cell that is on
    the screen and reads as visible. *)
Lemma collect_items_adds
      (self : GameMap.t) (console : Console) (cam : Z * Z)
      (l : list ((Z * Z) * list Graphic)) (d d' : dict obj)
      (x y : Z) (its : list Graphic) (g : Graphic) :
  GameMap.collect_items self console cam l d = Ok d' ->
  In ((x, y), its) l -> In g its ->
  GameMap.on_screen console (x - fst cam) (y - snd cam) = true ->
  Np.getitem (GameMap.visible self) (y, x) = Ok true ->
  listed d' (y - snd cam, x - fst cam) (Some g).
Proof.
  revert d. induction l as [|[[item_x item_y] its0] l IH]; intros d; simpl;
    [intros _ []|].
  intros Hrun [[= -> -> ->] | Hin] Hg Hscreen Hlit.
  - rewrite Hscreen, Hlit in Hrun. simpl in Hrun.
    apply (collect_items_keeps _ _ _ _ _ _ _ _ Hrun).
    destruct (dict_extend_adds d (y - snd cam, x - fst cam) (map Some its))
      as (vs' & Hin' & Hincl).
    exists vs'. split; [exact Hin' | apply Hincl, in_map, Hg].
  - destruct (GameMap.on_screen console (item_x - fst cam) (item_y - snd cam));
      simpl in Hrun; [|exact (IH _ Hrun Hin Hg Hscreen Hlit)].
    destruct (Np.getitem (GameMap.visible self) (item_y, item_x)) as [[|]|];
      simpl in Hrun; [| |discriminate];
      exact (IH _ Hrun Hin Hg Hscreen Hlit).
Qed.

(** [collect] lists every entity of the map on a cell of the map that is
    visible and on the screen. *)
Lemma collect_lists_visible
      (self : GameMap.t) (console : Console) (cam : Z * Z) (objs : dict obj)
      (x y : Z) (o : obj) :
  Np.has_shape (GameMap.visible self) (GameMap.height self) (GameMap.width self) ->
  GameMap.collect self console cam = Ok objs ->
  GameMap.entity_at self x y o ->
  GameMap.in_bounds self x y ->
  Np.item (GameMap.visible self) y x = true ->
  GameMap.on_screen console (x - fst cam) (y - snd cam) = true ->
  listed objs (y - snd cam, x - fst cam) o.
Proof.
  intros [Hvr Hvc] Hcollect Hent [Hx Hy] Hlit Hscreen.
  assert (Hget : Np.getitem (GameMap.visible self) (y, x) = Ok true)
    by (rewrite getitem_inside by (unfold Np.inside; lia); congruence).
  unfold GameMap.collect in Hcollect.
  destruct (GameMap.collect_actors _ _ _ _ _) as [d|e] eqn:Hd; [|discriminate].
  simpl in Hcollect.
  destruct Hent as [(a & Ha & (loc & Hloc & Hxy) & ->) | (its & g & Hin & Hg & ->)].
  - apply (collect_items_keeps _ _ _ _ _ _ _ _ Hcollect).
    unfold loc_xy in Hxy. injection Hxy as <- <-.
    apply (collect_actors_adds _ _ _ _ _ _ _ _ Hd Ha Hloc Hscreen Hget).
  - apply (collect_items_adds _ _ _ _ _ _ _ _ _ _ Hcollect Hin Hg Hscreen Hget).
Qed.

(** X18.  After a completed [render] of a map whose grids have their
    shape onto a console whose buffer has its shape, an entity of the map
    (the fighter of an actor, or an item) on a cell of the map that is
    visible and on the screen is among the objects collected for its
    screen cell, and that cell holds the character and colour of the
    least of them over the background of the tile's light graphic. *)
Theorem render_draws_visible_entity
        (self : GameMap.t) (console console' : Console) (x y : Z) (o : obj) :
  GameMap.grids_ok self -> console_ok console ->
  GameMap.render self console = (Ok tt, console') ->
  let cam := Camera.get_left_top_pos (GameMap.camera self)
               (con_width console, con_height console) in
  GameMap.entity_at self x y o ->
  GameMap.in_bounds self x y ->
  Np.item (GameMap.visible self) y x = true ->
  GameMap.on_screen console (x - fst cam) (y - snd cam) = true ->
  exists vs g,
    In o vs
    /\ (forall o', In o' vs -> GameMap.entity_at self x y o')
    /\ py_min vs = Ok (Some g)
    /\ Np.item (tiles_rgb console') (y - snd cam) (x - fst cam)
       = mk_graphic (char g) (color g)
           (bg (light (Np.item (GameMap.tiles self) y x))).
Proof.
  intros Hgrids Hcon Hrender. cbv zeta.
  destruct (render_stages _ _ _ Hrender) as (console1 & objs & Ht & Hc & Hd).
  pose proof (fun x y => render_terrain_cell _ _ _ x y Hgrids Hcon Ht) as Hterrain.
  cbv zeta in Hterrain.
  remember (Camera.get_left_top_pos (GameMap.camera self)
              (con_width console, con_height console)) as cam eqn:Hcam.
  intros Hent Hin Hlit Hscreen.
  destruct (render_terrain_console _ _ _ _ Ht) as (Hw1 & Hh1 & Hr1 & Hc1).
  assert (Hscreen1 : GameMap.on_screen console1 (x - fst cam) (y - snd cam) = true)
    by (unfold GameMap.on_screen in *; rewrite Hw1, Hh1; exact Hscreen).
  destruct (collect_lists_visible _ _ _ _ _ _ _ (proj2 (proj2 Hgrids)) Hc
              Hent Hin Hlit Hscreen1) as (vs & Hvs & Ho).
  apply collect_ok in Hc. destruct Hc as [Hnd Hobjs].
  assert (Hkeys : forall k vs, In (k, vs) objs ->
                    Np.inside (tiles_rgb console1) (fst k) (snd k)).
  { intros k vs0 Hk. destruct (Hobjs _ _ Hk) as (Hs & _ & _).
    unfold GameMap.on_screen in Hs. rewrite Hw1, Hh1 in Hs.
    rewrite !andb_true_iff, !Z.leb_le, !Z.ltb_lt in Hs.
    destruct Hcon as [Hcr Hcc]. unfold Np.inside. rewrite Hr1, Hc1. lia. }
  destruct (draw_cells _ _ _ Hnd Hkeys Hd (y - snd cam) (x - fst cam)) as [Hkey _].
  destruct (Hkey vs Hvs) as (g & Hmin & Hcell).
  destruct (Hobjs _ _ Hvs) as (_ & _ & Hents). simpl in Hents.
  exists vs, g. split; [exact Ho|]. split.
  - intros o' Ho'. specialize (Hents o' Ho').
    replace (x - fst cam + fst cam) with x in Hents by lia.
    replace (y - snd cam + snd cam) with y in Hents by lia.
    exact Hents.
  - split; [exact Hmin|].
    rewrite Hcell, (Hterrain _ _ Hin Hscreen), Hlit. reflexivity.
Qed.

End RenderingMore.

(** ** More on the model *)

Section ModelMore.
Context `{Graphics} `{Tcod}.

(** X19.  Reporting texts one after another prints them in order and
    leaves the log as it was with the texts added at its end, in order,
    repeated ones included; the map is not touched. *)
Theorem report_all_appends (self : Model.t) (texts : list String.string) :
  report_all self texts
  = (texts, Model.mk (Model.log self ++ texts) (Model.active_map self)).
Proof.
  revert self. induction texts as [|text texts IH]; intros self; simpl.
  - rewrite app_nil_r. destruct self. reflexivity.
  - rewrite IH. simpl. rewrite <- app_assoc. reflexivity.
Qed.

Variable invoke_next : Model.t -> Model.outcome.
Variable game_over_loop : Model.t -> Model.outcome.

Local Abbreviation loop := (Model.loop invoke_next game_over_loop).

(** X21.  The loop does not end by itself: where some property of the
    model holds at the start, is kept by the scheduler and the game-over
    handler, both of which return, and lets [is_player_dead] be
    evaluated, every one of the iterations allowed is run, each with its
    evaluation and its call. *)
Theorem loop_never_ends (Inv : Model.t -> Prop) (fuel : nat) (self : Model.t) :
  (forall m, Inv m -> exists dead, Model.is_player_dead m = Ok dead) ->
  (forall m, Inv m -> exists m', invoke_next m = Model.Returned m' /\ Inv m') ->
  (forall m, Inv m -> exists m', game_over_loop m = Model.Returned m' /\ Inv m') ->
  Inv self ->
  length (loop fuel self) = (2 * fuel)%nat.
Proof.
  intros Hdead Hnext Hover. revert self.
  induction fuel as [|fuel IH]; intros self Hinv; [reflexivity|].
  rewrite loop_step.
  destruct (Hdead self Hinv) as [dead ->].
  destruct dead.
  - destruct (Hover self Hinv) as (m' & -> & Hinv'). simpl.
    rewrite (IH m' Hinv'). lia.
  - destruct (Hnext self Hinv) as (m' & -> & Hinv'). simpl.
    rewrite (IH m' Hinv'). lia.
Qed.

(** X22.  While the predicate keeps its value across the calls made for
    that value, the other call is never made: with the player dead and a
    game-over handler that leaves it dead the scheduler is never invoked,
    and with the player alive and a scheduler that leaves it alive the
    game-over handler is never called. *)
Theorem loop_keeps_branch (dead : bool) (fuel : nat) (self : Model.t) :
  Model.is_player_dead self = Ok dead ->
  (forall m m',
     Model.is_player_dead m = Ok dead ->
     (if dead then game_over_loop m else invoke_next m) = Model.Returned m' ->
     Model.is_player_dead m' = Ok dead) ->
  forall m,
    ~ In (if dead then Model.CallInvokeNext m else Model.CallGameOver m)
         (loop fuel self).
Proof.
  intros Hstart Hkeep m. revert self Hstart.
  induction fuel as [|fuel IH]; intros self Hstart; [intros []|].
  rewrite loop_step, Hstart.
  destruct dead.
  - destruct (game_over_loop self) as [m'|] eqn:Hcall.
    + intros [Heq | [Heq | Hin]]; try discriminate.
      exact (IH m' (Hkeep _ _ Hstart Hcall) Hin).
    + intros [Heq | [Heq | []]]; discriminate.
  - destruct (invoke_next self) as [m'|] eqn:Hcall.
    + intros [Heq | [Heq | Hin]]; try discriminate.
      exact (IH m' (Hkeep _ _ Hstart Hcall) Hin).
    + intros [Heq | [Heq | []]]; discriminate.
Qed.

End ModelMore.

(** ** More on the sample floor *)

Section MoreOnTheSample.
#[local] Existing Instance Sample.graphics.
#[local] Existing Instance Sample.open_fov.

(** A 10 by 10 screen shows its camera's centre at (5, 5). *)
Lemma camera_centre_on_screen_witness :
  let '(camera_left, camera_top) :=
    Camera.get_left_top_pos (Camera.mk 2 2) (10, 10) in
  2 - camera_left = 10 / 2 /\ 2 - camera_top = 10 / 2
  /\ 0 <= 2 - camera_left < 10 /\ 0 <= 2 - camera_top < 10.
Proof.
  exact (camera_centre_on_screen (Camera.mk 2 2) (10, 10) eq_refl eq_refl).
Defined.

(** The views of the sample select five rows and five columns of the
    console and of the world. *)
Lemma get_views_select_window_witness :
  Np.slice_len (Np.mk_slice 3 8) 10 = Np.slice_len (Np.mk_slice 0 5) 5
  /\ Z.of_nat (Np.slice_len (Np.mk_slice 0 5) 5) = 5.
Proof.
  pose proof (get_views_select_window (Camera.mk 2 2) (5, 5) (10, 10)
                5%nat 5%nat 10%nat 10%nat eq_refl eq_refl eq_refl eq_refl) as Hv.
  simpl in Hv.
  destruct Hv as (_ & Hcols & _); [unfold Np.extent; simpl; lia ..|].
  exact Hcols.
Defined.

(** The camera of the sample is centred on a cell of its world. *)
Lemma get_views_centred_in_world_witness :
  let '(screen_view, world_view) :=
    Camera.get_views (Camera.mk 2 2) (5, 5) (10, 10) in
  0 <= Np.extent (snd screen_view) /\ 0 <= Np.extent (fst screen_view).
Proof.
  apply (get_views_centred_in_world (Camera.mk 2 2) (5, 5) (10, 10));
    simpl; lia.
Defined.

(** The constructor builds the blank map. *)
Lemma init_blank : GameMap.init 7%nat 5 5 = Ok Cases.blank.
Proof. reflexivity. Qed.

(** The middle of the blank map is blocked, with nobody there. *)
Lemma init_blocked_everywhere_witness :
  GameMap.is_blocked Cases.blank 2 2 = (Ok true, Cases.blank)
  /\ GameMap.fighter_at Cases.blank 2 2 = (Ok None, Cases.blank)
  /\ GameMap.update_fov Cases.blank = (Raise AttributeError, Cases.blank).
Proof.
  exact (init_blocked_everywhere 7%nat 5 5 Cases.blank 2 2 init_blank).
Defined.

(** The orc is found where it stands. *)
Lemma fighter_at_sound_witness :
  In Sample.orc (GameMap.actors Sample.floor)
  /\ GameMap.stands_at Sample.orc (4, 4).
Proof.
  exact (fighter_at_sound Sample.floor 4 4 Sample.orc eq_refl).
Defined.

(** The actors of the sample are on the map. *)
Lemma floor_placed : GameMap.placed (GameMap.actors Sample.floor).
Proof. repeat constructor; discriminate. Qed.

(** Nobody stands at (3, 3). *)
Lemma fighter_at_none_iff_witness :
  fst (GameMap.fighter_at Sample.floor 3 3) = Ok None
  <-> ~ exists a, In a (GameMap.actors Sample.floor)
                  /\ GameMap.stands_at a (3, 3).
Proof.
  exact (fighter_at_none_iff Sample.floor 3 3 floor_placed).
Defined.

(** The cell of the orc is blocked. *)
Lemma fighter_at_blocks_witness :
  GameMap.is_blocked Sample.floor 4 4 = (Ok true, Sample.floor).
Proof.
  apply (fighter_at_blocks Sample.floor 4 4 Sample.orc).
  - split; reflexivity.
  - reflexivity.
Defined.

(** The first recompute of the unseen floor. *)
Lemma update_fov_unseen :
  GameMap.update_fov Sample.unseen = (Ok tt, Sample.seen_once).
Proof. reflexivity. Qed.

(** What the first recompute of the unseen floor leaves. *)
Lemma update_fov_exact_witness :
  compute_fov (Np.field transparent (GameMap.tiles Sample.unseen)) (2, 2)
    10 true FOV_RESTRICTIVE = Ok (GameMap.visible Sample.seen_once)
  /\ forall i j,
       Np.inside (GameMap.explored Sample.unseen) i j ->
       Np.item (GameMap.explored Sample.seen_once) i j
       = Np.item (GameMap.explored Sample.unseen) i j
         || Np.item (GameMap.visible Sample.seen_once) i j.
Proof.
  apply (update_fov_exact Sample.unseen Sample.seen_once Sample.hero
           (mk_location 7%nat 2 2)).
  - exact open_fov_keeps_shape.
  - repeat split.
  - reflexivity.
  - reflexivity.
  - exact update_fov_unseen.
Defined.

(** Recomputing the floor seen once. *)
Lemma update_fov_idempotent_witness :
  exists self2,
    GameMap.update_fov Sample.seen_once = (Ok tt, self2)
    /\ GameMap.visible self2 = GameMap.visible Sample.seen_once
    /\ forall i j,
         Np.item (GameMap.explored self2) i j
         = Np.item (GameMap.explored Sample.seen_once) i j.
Proof.
  exact (update_fov_idempotent Sample.unseen Sample.seen_once update_fov_unseen).
Defined.

(** The sample is drawable, and its window meets it. *)
Lemma floor_drawable : GameMap.drawable Sample.floor.
Proof.
  split.
  - intros a [<- | [<- | [<- | []]]]; eexists; eexists;
      (split; [reflexivity|]); (split; [|reflexivity]);
      split; simpl; lia.
  - intros k its [[= <- <-] | [[= <- <-] | []]];
      (split; [split; simpl; lia | discriminate]).
Qed.

(** The window of the sample screen meets the sample floor. *)
Lemma floor_window : GameMap.window_meets_map Sample.floor Sample.screen.
Proof. split; simpl; lia. Qed.

(** Nothing stands or lies on the world cell (3, 1), which is in view:
    the light ground shows. *)
Lemma render_shows_terrain_witness :
  Np.item (tiles_rgb (snd (GameMap.render Sample.floor Sample.screen))) 4 6
  = light Sample.ground.
Proof.
  apply (render_shows_terrain Sample.floor Sample.screen _ 3 1
           floor_grids_ok screen_ok render_sample).
  - split; simpl; lia.
  - reflexivity.
  - intros o [(a & Ha & (loc & Hloc & Hxy) & _) | (its & g & Hin & _)].
    + destruct Ha as [<- | [<- | [<- | []]]];
        injection Hloc as <-; discriminate.
    + destruct Hin as [[=] | [[=] | []]].
Defined.

(** The top left cell of the sample screen shows no cell of the map. *)
Lemma render_margin_untouched_witness :
  Np.item (tiles_rgb (snd (GameMap.render Sample.floor Sample.screen))) 0 0
  = Np.item (tiles_rgb Sample.screen) 0 0.
Proof.
  apply (render_margin_untouched Sample.floor Sample.screen _ 0 0
           floor_grids_ok screen_ok floor_drawable floor_window render_sample).
  intros [Hx _]. simpl in Hx. lia.
Defined.


(** The camera two columns past the right edge. *)
Lemma render_raises_past_far_edge_witness :
  GameMap.render Sample.adrift Sample.screen = (Raise ValueError, Sample.screen).
Proof.
  apply (render_raises_past_far_edge Sample.adrift Sample.screen).
  - repeat split.
  - exact screen_ok.
  - left. simpl. lia.
Defined.

(** A potion, then the orc, then the troll: the orc is the first of the
    two least. *)
Lemma py_min_first_least_witness :
  exists pre post,
    Cases.pile = pre ++ fighter_obj Sample.orc :: post
    /\ (forall g', In (Some g') pre ->
                   graphic_lt (Sample.mk_glyph 111 (63, 127, 63) 0) g' = true)
    /\ (forall g', In (Some g') post ->
                   graphic_lt g' (Sample.mk_glyph 111 (63, 127, 63) 0) = false).
Proof.
  apply (py_min_first_least Cases.pile (Sample.mk_glyph 111 (63, 127, 63) 0)).
  - intros a b d Hab Hbd. simpl in *.
    apply Z.ltb_lt in Hab, Hbd. apply Z.ltb_lt. lia.
  - intros a b d Had. simpl in *. apply Z.ltb_lt in Had.
    destruct (Z.ltb_spec (Sample.render_order a) (Sample.render_order b));
      [left; reflexivity | right; apply Z.ltb_lt; lia].
  - reflexivity.
Defined.

(** The hero, in view at the centre of the screen. *)
Lemma render_draws_visible_entity_witness :
  exists vs g,
    In (fighter_obj Sample.hero) vs
    /\ (forall o', In o' vs -> GameMap.entity_at Sample.floor 2 2 o')
    /\ py_min vs = Ok (Some g)
    /\ Np.item (tiles_rgb (snd (GameMap.render Sample.floor Sample.screen))) 5 5
       = mk_graphic (char g) (color g)
           (bg (light (Np.item (GameMap.tiles Sample.floor) 2 2))).
Proof.
  apply (render_draws_visible_entity Sample.floor Sample.screen _ 2 2
           (fighter_obj Sample.hero) floor_grids_ok screen_ok render_sample).
  - left. exists Sample.hero. split; [left; reflexivity|].
    split; [|reflexivity]. eexists. split; reflexivity.
  - split; simpl; lia.
  - reflexivity.
  - reflexivity.
Defined.

(** The sample's scheduler and game-over screen return and keep the
    player there to be asked. *)
Lemma loop_never_ends_witness :
  length (Model.loop Sample.turn Sample.retry 6 Sample.session) = (2 * 6)%nat.
Proof.
  apply (loop_never_ends Sample.turn Sample.retry Cases.has_player).
  - intros m [p Hp]. unfold Model.is_player_dead. rewrite Hp. simpl.
    destruct (fighter p); eauto.
  - intros m [p Hp]. exists (Sample.wound m). split; [reflexivity|].
    unfold Cases.has_player, Model.player in *. simpl.
    destruct (GameMap.player (Model.active_map m)); [eauto | discriminate].
  - intros m _. exists Sample.session. split; [reflexivity|].
    eexists. reflexivity.
  - eexists. reflexivity.
Defined.

(** A lost session before a game-over screen that changes nothing: the
    scheduler is not invoked again. *)
Lemma loop_keeps_branch_witness :
  ~ In (Model.CallInvokeNext Cases.lost)
       (Model.loop Sample.turn Cases.stay 5 Cases.lost)
  /\ Model.is_player_dead Cases.lost = Ok true.
Proof.
  split; [|reflexivity].
  apply (loop_keeps_branch Sample.turn Cases.stay true 5 Cases.lost eq_refl).
  intros m m' Hdead [= <-]. exact Hdead.
Defined.

End MoreOnTheSample.
